(** * The ClickHouse span writer: batching scheduler, ingestion and shutdown

    A shallow embedding of [storage/clickhousespanstore/writer.go].

    The writer is a small concurrent program: producers call [WriteSpan],
    one goroutine runs [backgroundWriter], and somebody eventually calls
    [Close].  The sequential pieces (the body of one loop iteration, the
    body of [WriteSpan], the metrics registration) are plain functions; the
    goroutines are put together in an interleaving machine whose actions
    name every scheduling choice, so that an execution is a list of
    actions and can be evaluated. *)

From Stdlib Require Import ZArith Lia Bool.
From stdpp Require Import base option list strings gmap.

Open Scope Z_scope.

(** ** Time

    [time.Now()] carries a monotonic clock reading, an [int64] number of
    nanoseconds; [time.Duration] is an [int64] as well.  [time.Since] goes
    through the runtime's [subMono], which saturates instead of wrapping. *)

Definition Time := Z.
Definition Duration := Z.

Definition maxDuration : Duration := 2 ^ 63 - 1.
Definition minDuration : Duration := - 2 ^ 63.

Definition wrap64 (z : Z) : Z := (z + 2 ^ 63) mod 2 ^ 64 - 2 ^ 63.

Definition subMono (t u : Z) : Duration :=
  let d := wrap64 (t - u) in
  if (d <? 0) && (u <? t) then maxDuration
  else if (0 <? d) && (t <? u) then minDuration
  else d.

(** [time.Since(last)] when the clock reads [now]. *)
Definition Since (last now : Time) : Duration := subMono now last.

(** A monotonic reading: a non-negative [int64]. *)
Definition mono (t : Time) : Prop := 0 <= t < 2 ^ 63.

(** ** Request metadata

    [metadata.MD] is a [map[string][]string]; [FromIncomingContext]
    returns the map attached to the context and whether there was one.
    A context is modelled by the only thing the writer reads from it. *)

Definition error := option string.
Definition nil_error : error := None.

Record Ctx := mkCtx { incoming : option (gmap string (list string)) }.

Definition FromIncomingContext (ctx : Ctx) : gmap string (list string) * bool :=
  match incoming ctx with
  | Some md => (md, true)
  | None => (∅, false)
  end.

(** [md.Get(k)]: the values stored under [k], [nil] when there are none.
    (The library lower-cases [k] first; the only key used here,
    ["x-tenant"], is lower case already.) *)
Definition md_Get (md : gmap string (list string)) (k : string) : list string :=
  default [] (md !! k).

(** ** Configuration *)

Record WorkerParams := mkParams {
  indexTable : string;
  spansTable : string;
  tenant_default : string;      (* workerParams.tenant *)
  encoding : string;
  delay : Duration
}.

Record SpanWriter := mkWriter {
  workerParams : WorkerParams;
  size : Z
}.

Definition EncodingJSON : string := "json".
Definition EncodingProto : string := "protobuf".

(** ** Process-wide metrics *)

Definition name_numWritesWithBatchSize : string :=
  "jaeger_clickhouse_writes_with_batch_size_total".
Definition name_numWritesWithFlushInterval : string :=
  "jaeger_clickhouse_writes_with_flush_interval_total".

(** The two counters, as the number of [Inc] calls so far. *)
Record Metrics := mkMetrics {
  numWritesWithBatchSize : Z;
  numWritesWithFlushInterval : Z
}.

(** The process: the [sync.Once] gate, the default registry (the names it
    holds) and the log of [MustRegister] calls that went through. *)
Record Process := mkProcess {
  registerWriterMetrics : bool;          (* has the [sync.Once] fired *)
  registry : gset string;
  registrations : list string
}.

(** [prometheus.MustRegister]: panics ([None]) when the name is taken. *)
Definition MustRegister (name : string) (p : Process) : option Process :=
  if decide (name ∈ registry p) then None
  else Some {| registerWriterMetrics := registerWriterMetrics p;
               registry := {[ name ]} ∪ registry p;
               registrations := registrations p ++ [name] |}.

(** [registerMetrics]: the body runs under [registerWriterMetrics.Do], so
    only the first call in the process reaches [MustRegister].  [Do] marks
    the gate as fired even when the body panics; the panic itself ends
    the construction ([None]). *)
Definition registerMetrics (p : Process) : option Process :=
  if registerWriterMetrics p then Some p
  else
    let p := {| registerWriterMetrics := true;
                registry := registry p;
                registrations := registrations p |} in
    p ← MustRegister name_numWritesWithBatchSize p;
    MustRegister name_numWritesWithFlushInterval p.

(** [make(chan SpanAndTenant, size)] with an [int64] size is the runtime's
    [makechan64]/[makechan].  On a 64-bit platform ([int] is [int64], 48
    heap address bits) the element is 24 bytes wide (a pointer and a
    string header) and the call panics with "makechan: size out of range"
    when the buffer's size overflows a [uintptr], exceeds
    [maxAlloc - hchanSize], or the size is negative.  ([hchanSize] is 96;
    the 104 of later runtimes gives the same largest capacity.)  Running
    out of memory for a capacity in range is the runtime's fatal error and
    is not modelled. *)
Definition sizeof_SpanAndTenant : Z := 24.
Definition maxAlloc : Z := 2 ^ 48.
Definition hchanSize : Z := 96.

Definition uintptr (z : Z) : Z := z mod 2 ^ 64.

(** [math.MulUintptr]: the product as a [uintptr], and whether it
    overflowed. *)
Definition MulUintptr (a b : Z) : Z * bool :=
  ((a * b) mod 2 ^ 64, 2 ^ 64 <=? a * b).

Definition makechan_panics (size : Z) : bool :=
  let '(mem, overflow) := MulUintptr sizeof_SpanAndTenant (uintptr size) in
  overflow || (maxAlloc - hchanSize <? mem) || (size <? 0).

(** The largest capacity [make(chan SpanAndTenant, _)] accepts. *)
Definition max_chan_capacity : Z :=
  (maxAlloc - hchanSize) / sizeof_SpanAndTenant.

(** [size] is a value of type [int64]. *)
Definition is_int64 (size : Z) : Prop := - 2 ^ 63 <= size < 2 ^ 63.

(** [NewSpanWriter]: the channel is made first, and [make] may panic;
    then the metrics are registered and the scheduler goroutine is
    spawned.  The result is the writer, the argument the spawned
    [backgroundWriter] got (the goroutine itself is the machine below, in
    its initial state) and the process; [None] is a panic. *)
Definition NewSpanWriter (idx spans_tbl tenant enc : string) (d : Duration)
    (sz : Z) (maxSpanCount : Z) (p : Process)
    : option (SpanWriter * Z * Process) :=
  if makechan_panics sz then None
  else
    let writer := {| workerParams := mkParams idx spans_tbl tenant enc d;
                     size := sz |} in
    p ← registerMetrics p;
    Some (writer, maxSpanCount, p).

(** The arguments of one [NewSpanWriter] call, and a process that builds
    one writer after the other. *)
Record Config := mkConfig {
  cfg_indexTable : string;
  cfg_spansTable : string;
  cfg_tenant : string;
  cfg_encoding : string;
  cfg_delay : Duration;
  cfg_size : Z;
  cfg_maxSpanCount : Z
}.

Fixpoint construct (cs : list Config) (p : Process)
    : option (list SpanWriter * Process) :=
  match cs with
  | [] => Some ([], p)
  | c :: cs =>
      match NewSpanWriter (cfg_indexTable c) (cfg_spansTable c) (cfg_tenant c)
              (cfg_encoding c) (cfg_delay c) (cfg_size c)
              (cfg_maxSpanCount c) p with
      | Some (wr, _, p) =>
          match construct cs p with
          | Some (ws, p) => Some (wr :: ws, p)
          | None => None
          end
      | None => None
      end
  end.

Section Writer.

(** The span payload ([*model.Span]) is never inspected. *)
Variable Span : Type.

Record SpanAndTenant := mkSpanAndTenant {
  span : Span;
  tenant : string
}.

(** ** Slices

    [batch] is a Go slice: its elements and its capacity.  [append] keeps
    the capacity while there is room and asks the runtime for a bigger
    array otherwise; how much bigger is the runtime's business. *)

Record Slice := mkSlice {
  items : list SpanAndTenant;
  capacity : Z
}.

Variable growslice : Z -> Z -> Z.   (* old capacity, needed length *)

Definition make (c : Z) : Slice := {| items := []; capacity := c |}.
Definition len (s : Slice) : Z := Z.of_nat (length (items s)).
Definition cap (s : Slice) : Z := capacity s.

Definition append (s : Slice) (x : SpanAndTenant) : Slice :=
  {| items := items s ++ [x];
     capacity := if len s + 1 <=? cap s then cap s
                 else growslice (cap s) (len s + 1) |}.

(** ** Ingestion: [WriteSpan]

    The call does at most one channel send and then returns.  Its state is
    either "at the send [w.spans <- x], will return [e]" or "returned
    [e]"; the send itself is a step of the machine, since it can block. *)

Inductive Call :=
| AtSend (x : SpanAndTenant) (e : error)
| Returned (e : error).

Definition WriteSpan (w : SpanWriter) (ctx : Ctx) (sp : Span) : Call :=
  let '(md, ok) := FromIncomingContext ctx in
  if ok then
    let tenants := md_Get md "x-tenant" in
    match tenants with
    | [] => AtSend (mkSpanAndTenant sp "") nil_error
    | t0 :: _ => AtSend (mkSpanAndTenant sp t0) nil_error
    end
  else Returned nil_error.

(** ** The scheduler loop: [backgroundWriter] *)

Inductive Effect :=
| NewWorkerPool (p : WorkerParams) (maxSpanCount : Z)
| PoolWork                              (* go pool.Work() *)
| TimeAfter (d : Duration)              (* time.After(d) *)
| DoneAdd                               (* w.done.Add(1) *)
| DoneDone                              (* w.done.Done() *)
| LogDebug (msg : string)
| PoolWriteBatch (b : list SpanAndTenant)
| PoolClose
| CloseReturn (e : error).              (* Close() returned *)

(** The loop's local variables. *)
Record Loop := mkLoop {
  batch : Slice;
  timer : Duration;     (* the period the pending [time.After] was armed with *)
  last : Time
}.

(** Which case of the [select] fired. *)
Inductive Case :=
| CaseSpan (x : SpanAndTenant)      (* span := <-w.spans *)
| CaseTimer (now : Time)            (* <-timer; [now]: the clock at [time.Since] *)
| CaseFinish.                       (* <-w.finish *)

(** What the [select] statement leaves behind. *)
Record Selected := mkSelected {
  sel_loop : Loop;
  sel_metrics : Metrics;
  sel_flush : bool;
  sel_finish : bool;
  sel_effects : list Effect
}.

Definition inc_batch_size (g : Metrics) : Metrics :=
  {| numWritesWithBatchSize := numWritesWithBatchSize g + 1;
     numWritesWithFlushInterval := numWritesWithFlushInterval g |}.

Definition inc_flush_interval (g : Metrics) : Metrics :=
  {| numWritesWithBatchSize := numWritesWithBatchSize g;
     numWritesWithFlushInterval := numWritesWithFlushInterval g + 1 |}.

(** Lines 105-127. *)
Definition backgroundWriter_select (w : SpanWriter) (c : Case) (l : Loop)
    (g : Metrics) : Selected :=
  match c with
  | CaseSpan x =>
      let batch' := append (batch l) x in
      let flush := len batch' =? cap batch' in
      let l' := {| batch := batch'; timer := timer l; last := last l |} in
      if flush
      then mkSelected l' (inc_batch_size g) true false
             [LogDebug "Flush due to batch size"]
      else mkSelected l' g false false []
  | CaseTimer now =>
      let l' := {| batch := batch l; timer := delay (workerParams w);
                   last := last l |} in
      let flush := (delay (workerParams w) <? Since (last l) now)
                   && (0 <? len (batch l)) in
      if flush
      then mkSelected l' (inc_flush_interval g) true false
             [TimeAfter (delay (workerParams w)); LogDebug "Flush due to timer"]
      else mkSelected l' g false false [TimeAfter (delay (workerParams w))]
  | CaseFinish =>
      mkSelected l g (0 <? len (batch l)) true [LogDebug "Finish channel"]
  end.

(** Lines 129-143: the flush, the pool's shutdown, the barrier's release.
    [now] is the clock at [last = time.Now()].  The result is the loop
    state to continue with, or [None] after [break]. *)
Definition backgroundWriter_after (w : SpanWriter) (now : Time)
    (flush finish : bool) (l : Loop) : option Loop * list Effect :=
  let '(l1, e1) :=
    if flush
    then ({| batch := make (size w); timer := timer l; last := now |},
          [PoolWriteBatch (items (batch l))])
    else (l, []) in
  let e2 := if finish then [PoolClose] else [] in
  (if finish then None else Some l1, e1 ++ e2 ++ [DoneDone]).

(** Lines 95-100. *)
Definition backgroundWriter_start (w : SpanWriter) (maxSpanCount : Z)
    (now : Time) : Loop * list Effect :=
  ({| batch := make (size w); timer := delay (workerParams w); last := now |},
   [NewWorkerPool (workerParams w) maxSpanCount; PoolWork;
    TimeAfter (delay (workerParams w))]).

(** One whole iteration, lines 103-143, when nothing else interleaves. *)
Definition backgroundWriter_iteration (w : SpanWriter) (c : Case)
    (now : Time) (l : Loop) (g : Metrics)
    : option Loop * Metrics * list Effect :=
  let s := backgroundWriter_select w c l g in
  let '(next, e) :=
    backgroundWriter_after w now (sel_flush s) (sel_finish s) (sel_loop s) in
  (next, sel_metrics s, DoneAdd :: sel_effects s ++ e).

(** The loop driven by a list of [select] outcomes, each with the clock
    reading a flush in that iteration would see. *)
Fixpoint backgroundWriter_loop (w : SpanWriter) (cs : list (Case * Time))
    (l : Loop) (g : Metrics) : option Loop * Metrics * list Effect :=
  match cs with
  | [] => (Some l, g, [])
  | (c, now) :: cs =>
      match backgroundWriter_iteration w c now l g with
      | (Some l', g', e) =>
          let '(r, g'', e') := backgroundWriter_loop w cs l' g' in
          (r, g'', e ++ e')
      | (None, g', e) => (None, g', e)
      end
  end.

(** The batches handed to the pool, in order. *)
Fixpoint flushed (t : list Effect) : list (list SpanAndTenant) :=
  match t with
  | [] => []
  | PoolWriteBatch b :: t => b :: flushed t
  | _ :: t => flushed t
  end.


(** ** The machine: producers, the scheduler goroutine and [Close]

    The state of one writer after [NewSpanWriter] returned.  [w.spans] is
    a buffered channel of capacity [size w]; [w.finish] is unbuffered, so
    its send and the [select]'s receive happen in one step; [w.done] is
    the wait group's counter. *)

Inductive Sched :=
| SchedInit                                  (* spawned, nothing run yet *)
| SchedTop (l : Loop)                         (* head of [for], line 103 *)
| SchedSelect (l : Loop)                      (* in [select], line 108 *)
| SchedAfter (l : Loop) (flush finish : bool) (* line 129 *)
| SchedExit.                                  (* after [break] *)

Inductive Closer :=
| CloseIdle                    (* [Close] not called *)
| CloseSending                 (* at [w.finish <- true] *)
| CloseWaiting                 (* at [w.done.Wait()] *)
| CloseDone (e : error).       (* returned [e] *)

Record Machine := mkMachine {
  spans : list SpanAndTenant;
  calls : list Call;             (* the [WriteSpan] calls made so far *)
  closer : Closer;
  done : Z;
  sched : Sched;
  metrics : Metrics;
  trace : list Effect
}.

Inductive Action :=
| ActWriteSpan (ctx : Ctx) (sp : Span)   (* a producer enters [WriteSpan] *)
| ActSend (i : nat)                      (* call [i]: its send goes into the buffer *)
| ActClose                               (* somebody enters [Close] *)
| ActWait                                (* [w.done.Wait()] returns *)
| ActStart (now : Time)                  (* the goroutine runs lines 95-100 *)
| ActAdd                                 (* line 103 *)
| ActRecv                                (* [select]: a span from the buffer *)
| ActRecvFrom (i : nat)                  (* [select]: a span straight from call [i] *)
| ActTick (now : Time)                   (* [select]: the timer *)
| ActFinish                              (* [select]: the shutdown signal *)
| ActAfter (now : Time).                 (* lines 129-143 *)

Section Machine.

Variable w : SpanWriter.
Variable maxSpanCount : Z.

Definition boot (g : Metrics) : Machine :=
  {| spans := []; calls := []; closer := CloseIdle; done := 0;
     sched := SchedInit; metrics := g; trace := [] |}.

(** The scheduler leaves [select] through case [c]. *)
Definition selected (c : Case) (l : Loop) (buf : list SpanAndTenant)
    (cs : list Call) (cl : Closer) (m : Machine) : Machine :=
  let s := backgroundWriter_select w c l (metrics m) in
  {| spans := buf; calls := cs; closer := cl; done := done m;
     sched := SchedAfter (sel_loop s) (sel_flush s) (sel_finish s);
     metrics := sel_metrics s;
     trace := trace m ++ sel_effects s |}.

Definition step (a : Action) (m : Machine) : option Machine :=
  match a with
  | ActWriteSpan ctx sp =>
      Some {| spans := spans m; calls := calls m ++ [WriteSpan w ctx sp];
              closer := closer m; done := done m; sched := sched m;
              metrics := metrics m; trace := trace m |}
  | ActSend i =>
      match calls m !! i with
      | Some (AtSend x e) =>
          if Z.of_nat (length (spans m)) <? size w
          then Some {| spans := spans m ++ [x];
                       calls := <[i := Returned e]> (calls m);
                       closer := closer m; done := done m; sched := sched m;
                       metrics := metrics m; trace := trace m |}
          else None
      | _ => None
      end
  | ActClose =>
      match closer m with
      | CloseIdle =>
          Some {| spans := spans m; calls := calls m; closer := CloseSending;
                  done := done m; sched := sched m; metrics := metrics m;
                  trace := trace m |}
      | _ => None
      end
  | ActWait =>
      match closer m with
      | CloseWaiting =>
          if done m =? 0
          then Some {| spans := spans m; calls := calls m;
                       closer := CloseDone nil_error; done := done m;
                       sched := sched m; metrics := metrics m;
                       trace := trace m ++ [CloseReturn nil_error] |}
          else None
      | _ => None
      end
  | ActStart now =>
      match sched m with
      | SchedInit =>
          let '(l, e) := backgroundWriter_start w maxSpanCount now in
          Some {| spans := spans m; calls := calls m; closer := closer m;
                  done := done m; sched := SchedTop l; metrics := metrics m;
                  trace := trace m ++ e |}
      | _ => None
      end
  | ActAdd =>
      match sched m with
      | SchedTop l =>
          Some {| spans := spans m; calls := calls m; closer := closer m;
                  done := done m + 1; sched := SchedSelect l;
                  metrics := metrics m; trace := trace m ++ [DoneAdd] |}
      | _ => None
      end
  | ActRecv =>
      match sched m, spans m with
      | SchedSelect l, x :: buf =>
          Some (selected (CaseSpan x) l buf (calls m) (closer m) m)
      | _, _ => None
      end
  | ActRecvFrom i =>
      match sched m, spans m, calls m !! i with
      | SchedSelect l, [], Some (AtSend x e) =>
          if size w <=? 0
          then Some (selected (CaseSpan x) l []
                       (<[i := Returned e]> (calls m)) (closer m) m)
          else None
      | _, _, _ => None
      end
  | ActTick now =>
      match sched m with
      | SchedSelect l =>
          Some (selected (CaseTimer now) l (spans m) (calls m) (closer m) m)
      | _ => None
      end
  | ActFinish =>
      match sched m, closer m with
      | SchedSelect l, CloseSending =>
          Some (selected CaseFinish l (spans m) (calls m) CloseWaiting m)
      | _, _ => None
      end
  | ActAfter now =>
      match sched m with
      | SchedAfter l flush finish =>
          let '(next, e) := backgroundWriter_after w now flush finish l in
          Some {| spans := spans m; calls := calls m; closer := closer m;
                  done := done m - 1;
                  sched := match next with
                           | Some l' => SchedTop l'
                           | None => SchedExit
                           end;
                  metrics := metrics m; trace := trace m ++ e |}
      | _ => None
      end
  end.

(** An execution: the actions taken, in order; [None] when one of them
    was not possible where it was taken. *)
Fixpoint run (acts : list Action) (m : Machine) : option Machine :=
  match acts with
  | [] => Some m
  | a :: acts => m' ← step a m; run acts m'
  end.

End Machine.

End Writer.

Arguments mkSpanAndTenant {Span} _ _.
Arguments span {Span} _.
Arguments tenant {Span} _.
Arguments WriteSpan {Span} _ _ _.
Arguments AtSend {Span} _ _.
Arguments Returned {Span} _.
Arguments PoolWriteBatch {Span} _.
Arguments PoolClose {Span}.
Arguments DoneDone {Span}.
Arguments DoneAdd {Span}.
Arguments LogDebug {Span} _.
Arguments TimeAfter {Span} _.
Arguments PoolWork {Span}.
Arguments NewWorkerPool {Span} _ _.
Arguments CloseReturn {Span} _.
Arguments CaseSpan {Span} _.
Arguments CaseTimer {Span} _.
Arguments CaseFinish {Span}.
Arguments ActWriteSpan {Span} _ _.
Arguments ActSend {Span} _.
Arguments ActClose {Span}.
Arguments ActWait {Span}.
Arguments ActStart {Span} _.
Arguments ActAdd {Span}.
Arguments ActRecv {Span}.
Arguments ActRecvFrom {Span} _.
Arguments ActTick {Span} _.
Arguments ActFinish {Span}.
Arguments ActAfter {Span} _.
Arguments mkSlice {Span} _ _.
Arguments items {Span} _.
Arguments capacity {Span} _.
Arguments make {Span} _.
Arguments len {Span} _.
Arguments cap {Span} _.
Arguments append {Span} _ _ _.
Arguments mkLoop {Span} _ _ _.
Arguments batch {Span} _.
Arguments timer {Span} _.
Arguments last {Span} _.
Arguments mkSelected {Span} _ _ _ _ _.
Arguments sel_loop {Span} _.
Arguments sel_metrics {Span} _.
Arguments sel_flush {Span} _.
Arguments sel_finish {Span} _.
Arguments sel_effects {Span} _.
Arguments backgroundWriter_select {Span} _ _ _ _ _.
Arguments backgroundWriter_after {Span} _ _ _ _ _.
Arguments backgroundWriter_start {Span} _ _ _.
Arguments backgroundWriter_iteration {Span} _ _ _ _ _ _.
Arguments backgroundWriter_loop {Span} _ _ _ _ _.
Arguments flushed {Span} _.
Arguments SchedInit {Span}.
Arguments SchedTop {Span} _.
Arguments SchedSelect {Span} _.
Arguments SchedAfter {Span} _ _ _.
Arguments SchedExit {Span}.
Arguments mkMachine {Span} _ _ _ _ _ _ _.
Arguments spans {Span} _.
Arguments calls {Span} _.
Arguments closer {Span} _.
Arguments done {Span} _.
Arguments sched {Span} _.
Arguments metrics {Span} _.
Arguments trace {Span} _.
Arguments boot {Span} _.
Arguments selected {Span} _ _ _ _ _ _ _ _.
Arguments step {Span} _ _ _ _ _.
Arguments run {Span} _ _ _ _ _.


(** ** Fixtures used by the examples below *)

Definition w3 : SpanWriter :=
  mkWriter (mkParams "jaeger_index" "jaeger_spans" "default" EncodingJSON 1000) 3.
Definition ctx_tenant (t : string) : Ctx := mkCtx (Some {[ "x-tenant" := [t] ]}).
Definition ctx_no_metadata : Ctx := mkCtx None.
Definition g0 : Metrics := mkMetrics 0 0.
Definition grow_exact : Z -> Z -> Z := fun _ n => n.
Definition process_start : Process := mkProcess false ∅ [].
Definition config3 : Config :=
  mkConfig "jaeger_index" "jaeger_spans" "default" EncodingJSON 1000 3 10.

Definition A1 : SpanAndTenant string := mkSpanAndTenant "A" "t1".
Definition B1 : SpanAndTenant string := mkSpanAndTenant "B" "t1".
Definition C1 : SpanAndTenant string := mkSpanAndTenant "C" "t1".

(** A is submitted, the scheduler receives it, then [Close] is called. *)
Definition received_then_closed : list (Action string) :=
  [ActWriteSpan (ctx_tenant "t1") "A"; ActSend 0%nat; ActStart 5; ActAdd;
   ActRecv; ActAfter 6; ActClose; ActAdd; ActFinish; ActAfter 9; ActWait].

(** The same up to the point where the scheduler is in [select] again,
    with A in its batch and [Close] at its send. *)
Definition received_then_closing : list (Action string) :=
  [ActWriteSpan (ctx_tenant "t1") "A"; ActSend 0%nat; ActStart 5; ActAdd;
   ActRecv; ActAfter 6; ActClose; ActAdd].

(** A is submitted and [WriteSpan] returns; [Close] is called; only then
    does the scheduler goroutine get to run, and its first [select], with
    both a queued span and the shutdown signal ready, takes the signal. *)
Definition closed_before_received : list (Action string) :=
  [ActWriteSpan (ctx_tenant "t1") "A"; ActSend 0%nat; ActClose; ActStart 5;
   ActAdd; ActFinish; ActAfter 9; ActWait].

(** A is submitted without metadata, B with a tenant; B is flushed at
    shutdown. *)
Definition dropped_and_kept : list (Action string) :=
  [ActWriteSpan ctx_no_metadata "A"; ActWriteSpan (ctx_tenant "t1") "B";
   ActSend 1%nat; ActStart 5; ActAdd; ActRecv; ActAfter 6; ActClose; ActAdd;
   ActFinish; ActAfter 9; ActWait].

(** A, B and C are submitted one after the other and received in turn. *)
Definition three_submissions : list (Action string) :=
  [ActWriteSpan (ctx_tenant "t1") "A"; ActSend 0%nat;
   ActWriteSpan (ctx_tenant "t1") "B"; ActSend 1%nat;
   ActWriteSpan (ctx_tenant "t1") "C"; ActSend 2%nat;
   ActStart 0; ActAdd; ActRecv; ActAfter 1; ActAdd; ActRecv; ActAfter 2;
   ActAdd; ActRecv; ActAfter 3].

(** Ticks and nothing else. *)
Definition only_ticks : list (Action string) :=
  [ActStart 0; ActAdd; ActTick 5000; ActAfter 5001; ActAdd; ActTick 9000;
   ActAfter 9001].

Definition machine_after (acts : list (Action string)) : Machine string :=
  default (boot g0) (run grow_exact w3 7 acts (boot g0)).

Definition loop_AB : Loop string := mkLoop (mkSlice [A1; B1] 3) 1000 0.
Definition loop_A : Loop string := mkLoop (mkSlice [A1] 3) 1000 0.

(** More fixtures: an unbuffered writer and a fresh loop state. *)
Definition w0 : SpanWriter :=
  mkWriter (mkParams "jaeger_index" "jaeger_spans" "default" EncodingJSON 1000) 0.

Definition D1 : SpanAndTenant string := mkSpanAndTenant "D" "t1".

Definition top_loop : Loop string := mkLoop (make 3) 1000 5.


(** The queue of [w3] full, a fourth producer blocked. *)
Definition queue_full : list (Action string) :=
  [ActWriteSpan (ctx_tenant "t1") "A"; ActSend 0%nat;
   ActWriteSpan (ctx_tenant "t1") "B"; ActSend 1%nat;
   ActWriteSpan (ctx_tenant "t1") "C"; ActSend 2%nat;
   ActWriteSpan (ctx_tenant "t1") "D"].

Definition closing_at_init : list (Action string) :=
  [ActWriteSpan (ctx_tenant "t1") "A"; ActSend 0%nat; ActClose].

Definition md_two_tenants : gmap string (list string) :=
  {[ "x-tenant" := ["t1"; "t2"] ]}.
Definition md_tenant_and_more : gmap string (list string) :=
  <[ "x-trace" := ["on"] ]> {[ "x-tenant" := ["t1"] ]}.

(** The loop has ended, the queue is full and one more producer is at
    its send. *)
Definition stuck_after_exit : list (Action string) :=
  closed_before_received
    ++ [ActWriteSpan (ctx_tenant "t1") "B"; ActSend 1%nat;
        ActWriteSpan (ctx_tenant "t1") "C"; ActSend 2%nat;
        ActWriteSpan (ctx_tenant "t1") "D"].

(** * Properties *)

Section Properties.

Context {Span : Type}.
Variable growslice : Z -> Z -> Z.
Variable w : SpanWriter.
Variable maxSpanCount : Z.

Local Abbreviation Machine := (Machine Span).
Local Abbreviation stepw := (step growslice w maxSpanCount).
Local Abbreviation runw := (run growslice w maxSpanCount).

#[local] Arguments backgroundWriter_select : simpl never.
#[local] Arguments backgroundWriter_after : simpl never.
#[local] Arguments append : simpl never.

(** ** Invariants of the machine and other predicates used below *)

Definition batch_ok (b : list (SpanAndTenant Span)) : Prop :=
  1 <= Z.of_nat (length b) <= size w.

Definition sched_bounded (s : Sched Span) : Prop :=
  match s with
  | SchedInit | SchedExit => True
  | SchedTop l | SchedSelect l =>
      cap (batch l) = size w /\ len (batch l) < size w
  | SchedAfter l flush finish =>
      cap (batch l) = size w /\ len (batch l) <= size w /\
      (flush = true -> 1 <= len (batch l)) /\
      (flush = false -> len (batch l) < size w)
  end.

Definition bounded (m : Machine) : Prop :=
  sched_bounded (sched m) /\ Forall batch_ok (flushed (trace m)).

Definition call_item (Q : SpanAndTenant Span -> Prop) (c : Call Span) : Prop :=
  match c with
  | AtSend x _ => Q x
  | Returned _ => True
  end.

Definition sched_items (Q : SpanAndTenant Span -> Prop) (s : Sched Span) : Prop :=
  match s with
  | SchedInit | SchedExit => True
  | SchedTop l | SchedSelect l | SchedAfter l _ _ => Forall Q (items (batch l))
  end.

(** Every entry anywhere in the machine (in a pending send, in the queue,
    in the current batch, in a flushed batch) satisfies [Q]. *)
Definition all_items (Q : SpanAndTenant Span -> Prop) (m : Machine) : Prop :=
  Forall Q (spans m) /\ Forall (call_item Q) (calls m) /\
  sched_items Q (sched m) /\ Forall (Forall Q) (flushed (trace m)).

Definition enters (Q : SpanAndTenant Span -> Prop) (a : Action Span) : Prop :=
  match a with
  | ActWriteSpan ctx sp => call_item Q (WriteSpan w ctx sp)
  | _ => True
  end.

(** The tenant [WriteSpan] attaches: the first value under ["x-tenant"],
    the empty string when there is none. *)
Definition tenant_of (md : gmap string (list string)) : string :=
  default "" (head (md_Get md "x-tenant")).

(** [x] was submitted during [acts]: some [WriteSpan] call carried its
    span under a context with metadata that gives its tenant. *)
Definition submitted (acts : list (Action Span)) (x : SpanAndTenant Span) : Prop :=
  exists ctx md,
    ActWriteSpan ctx (span x) ∈ acts /\ incoming ctx = Some md /\
    WriteSpan w ctx (span x) = AtSend x nil_error /\
    tenant x = tenant_of md.



(** The machine with nothing submitted: no call, nothing queued, nothing
    batched, nothing flushed. *)
Definition idle (m : Machine) : Prop :=
  spans m = [] /\ calls m = [] /\ flushed (trace m) = [] /\
  match sched m with
  | SchedInit | SchedExit => True
  | SchedTop l | SchedSelect l => items (batch l) = []
  | SchedAfter l flush _ => items (batch l) = [] /\ flush = false
  end.

Definition not_a_write (a : Action Span) : Prop :=
  match a with
  | ActWriteSpan _ _ => False
  | _ => True
  end.

Definition finish_log : Effect Span := LogDebug "Finish channel".

(** What the shutdown iteration hands to the pool: nothing, or one
    non-empty batch. *)
Definition shutdown_flush (fl : list (Effect Span)) : Prop :=
  fl = [] \/ exists b, b <> [] /\ fl = [PoolWriteBatch b].

(** The wait group's counter follows the scheduler: one while an
    iteration is under way, zero between iterations and after the loop. *)
Definition barrier (m : Machine) : Prop :=
  match sched m with
  | SchedInit | SchedTop _ | SchedExit => done m = 0
  | SchedSelect _ | SchedAfter _ _ _ => done m = 1
  end.

Definition shutdown_inv (m : Machine) : Prop :=
  barrier m /\
  match closer m with
  | CloseIdle | CloseSending =>
      (PoolClose ∉ trace m) /\
      match sched m with
      | SchedAfter _ _ finish => finish = false
      | SchedExit => False
      | _ => True
      end
  | CloseWaiting =>
      exists t, (PoolClose ∉ t) /\
        ((exists l, sched m = SchedAfter l (0 <? len (batch l)) true /\
                    trace m = t ++ [finish_log]) \/
         (sched m = SchedExit /\
          exists fl, shutdown_flush fl /\
            trace m = t ++ [finish_log] ++ fl ++ [PoolClose; DoneDone]))
  | CloseDone e =>
      e = nil_error /\ sched m = SchedExit /\
      exists t fl, (PoolClose ∉ t) /\ shutdown_flush fl /\
        trace m = t ++ [finish_log] ++ fl
                    ++ [PoolClose; DoneDone; CloseReturn nil_error]
  end.

(** The entries in the scheduler's current batch. *)
Definition batch_of (s : Sched Span) : list (SpanAndTenant Span) :=
  match s with
  | SchedInit | SchedExit => []
  | SchedTop l | SchedSelect l | SchedAfter l _ _ => items (batch l)
  end.

(** The entry whose send on [w.spans] completes with action [a], if any. *)
Definition sent_by (a : Action Span) (m : Machine)
    : list (SpanAndTenant Span) :=
  match a with
  | ActSend i | ActRecvFrom i =>
      match calls m !! i with
      | Some (AtSend x _) => [x]
      | _ => []
      end
  | _ => []
  end.

(** The entries sent on [w.spans] during an execution, in the order their
    sends completed. *)
Fixpoint delivered (acts : list (Action Span)) (m : Machine)
    : list (SpanAndTenant Span) :=
  match acts with
  | [] => []
  | a :: acts =>
      match stepw a m with
      | Some m' => sent_by a m ++ delivered acts m'
      | None => []
      end
  end.

(** After [select] took the shutdown signal, [flush] says whether the
    batch is non-empty. *)
Definition finish_flag_ok (m : Machine) : Prop :=
  match sched m with
  | SchedAfter l flush true => flush = (0 <? len (batch l))
  | _ => True
  end.

(** How often the two counters were incremented since they read [g]. *)
Definition counted (g : Metrics) (m : Machine) : Z :=
  (numWritesWithBatchSize (metrics m) - numWritesWithBatchSize g)
  + (numWritesWithFlushInterval (metrics m) - numWritesWithFlushInterval g).

(** The counters against the batches handed to the pool: equal between
    iterations; one ahead between the [select] that decided a size or
    timer flush and the [WriteBatch] that carries it out; at most one
    behind after the loop, by the shutdown flush, which is not counted. *)
Definition flush_accounting (g : Metrics) (m : Machine) : Prop :=
  numWritesWithBatchSize g <= numWritesWithBatchSize (metrics m) /\
  numWritesWithFlushInterval g <= numWritesWithFlushInterval (metrics m) /\
  match sched m with
  | SchedInit | SchedTop _ | SchedSelect _ =>
      counted g m = Z.of_nat (length (flushed (trace m)))
  | SchedAfter _ flush finish =>
      counted g m = Z.of_nat (length (flushed (trace m)))
                    + (if flush && negb finish then 1 else 0)
  | SchedExit =>
      Z.of_nat (length (flushed (trace m))) - 1 <= counted g m
      <= Z.of_nat (length (flushed (trace m)))
  end.

(** Lines 95-99 and 117: what the goroutine does before its first
    iteration. *)
Definition start_effects : list (Effect Span) :=
  [NewWorkerPool (workerParams w) maxSpanCount; PoolWork;
   TimeAfter (delay (workerParams w))].

(** An effect of the loop's iterations: neither the pool's creation or
    start, nor its shutdown, nor the return of [Close]. *)
Definition in_loop (e : Effect Span) : Prop :=
  match e with
  | NewWorkerPool _ _ | PoolWork | PoolClose | CloseReturn _ => False
  | _ => True
  end.

(** The life of the pool as the trace shows it. *)
Definition pool_life (m : Machine) : Prop :=
  match sched m with
  | SchedInit => trace m = []
  | SchedTop _ | SchedSelect _ | SchedAfter _ _ _ =>
      exists body, trace m = start_effects ++ body /\ Forall in_loop body
  | SchedExit =>
      exists body,
        trace m = start_effects ++ body ++ [PoolClose; DoneDone]
                    ++ match closer m with
                       | CloseDone e => [CloseReturn e]
                       | _ => []
                       end /\
        Forall in_loop body
  end.

(** A run of the loop in which every [select] receives a span: the spans
    with the clock readings of their iterations. *)
Definition arrivals (xs : list (SpanAndTenant Span * Time))
    : list (Case Span * Time) :=
  map (fun p => (CaseSpan (fst p), snd p)) xs.

(** A run of the loop in which every [select] is a timer tick: the clock
    readings at [time.Since] and at a flush. *)
Definition ticks (ts : list (Time * Time)) : list (Case Span * Time) :=
  map (fun p => (CaseTimer (fst p), snd p)) ts.

(** ** Lemmas and theorems *)

Lemma flushed_app (t u : list (Effect Span)) :
  flushed (t ++ u) = flushed t ++ flushed u.
Proof.
  induction t as [|e t IH]; [reflexivity|].
  destruct e; simpl; rewrite ?IH; reflexivity.
Qed.

(** A property kept by every step holds along every execution; [A]
    restricts the actions the execution may take. *)
Lemma run_invariant_on (A : Action Span -> Prop) (P : Machine -> Prop) :
  (forall a m m', A a -> P m -> stepw a m = Some m' -> P m') ->
  forall acts m m', Forall A acts -> P m -> runw acts m = Some m' -> P m'.
Proof.
  intros Hstep acts. induction acts as [|a acts IH]; intros m m' HA HP Hrun.
  - simpl in Hrun. congruence.
  - simpl in Hrun. destruct (stepw a m) as [m1|] eqn:E; [|discriminate].
    simpl in Hrun. inversion HA; subst.
    eapply IH; [assumption| |exact Hrun]. eapply Hstep; eauto.
Qed.

Lemma run_invariant (P : Machine -> Prop) :
  (forall a m m', P m -> stepw a m = Some m' -> P m') ->
  forall acts m m', P m -> runw acts m = Some m' -> P m'.
Proof.
  intros Hstep acts m m' HP Hrun.
  eapply (run_invariant_on (fun _ => True) P); [|apply Forall_true|eauto..];
    eauto.
Qed.

Lemma elem_of_flushed (t : list (Effect Span)) b :
  b ∈ flushed t <-> PoolWriteBatch b ∈ t.
Proof.
  induction t as [|e t IH]; simpl.
  - split; intros H; inversion H.
  - destruct e; rewrite ?elem_of_cons, IH;
      try (split; [auto | intros [?|?]; [discriminate | assumption]]).
    split; (intros [?|?]; [left; congruence | right; assumption]).
Qed.

Lemma select_no_pool (c : Case Span) l g :
  let s := backgroundWriter_select growslice w c l g in
  flushed (sel_effects s) = [] /\ PoolClose ∉ sel_effects s.
Proof.
  destruct c; unfold backgroundWriter_select; simpl;
    repeat match goal with
           | |- context [if ?b then _ else _] => destruct b
           end; simpl; (split; [reflexivity|]);
    rewrite ?elem_of_cons, elem_of_nil; intuition discriminate.
Qed.

(** Case analysis on one step of the machine. *)
Ltac list_assoc :=
  repeat (rewrite <- ?app_assoc; simpl); reflexivity.

Ltac step_inv H :=
  unfold step, selected, backgroundWriter_start in H;
  repeat match type of H with
         | context [match ?x with _ => _ end] => destruct x eqn:?
         end;
  simplify_eq/=.

(** *** Batch bounds *)

Lemma select_bounded (c : Case Span) l g :
  1 <= size w ->
  cap (batch l) = size w -> len (batch l) < size w ->
  let s := backgroundWriter_select growslice w c l g in
  sched_bounded (SchedAfter (sel_loop s) (sel_flush s) (sel_finish s)) /\
  flushed (sel_effects s) = [].
Proof.
  intros Hsz Hcap Hlen.
  destruct c as [x|now|]; cbv beta iota zeta delta [backgroundWriter_select].
  - assert (Hl : len (append growslice (batch l) x) = len (batch l) + 1).
    { unfold len, append. simpl. rewrite length_app. simpl. lia. }
    assert (Hc : cap (append growslice (batch l) x) = size w).
    { unfold append, cap at 1. simpl.
      destruct (Z.leb_spec (len (batch l) + 1) (cap (batch l))); lia. }
    destruct (Z.eqb_spec (len (append growslice (batch l) x))
                (cap (append growslice (batch l) x))) as [He|Hne];
      cbn [sel_loop sel_flush sel_finish sel_effects sched_bounded batch flushed];
      (split; [|reflexivity]); repeat split; intros; try lia; try discriminate.
  - destruct (delay (workerParams w) <? Since (last l) now) eqn:E1;
      destruct (0 <? len (batch l)) eqn:E2; simpl;
      (split; [|reflexivity]); repeat split; intros; try lia; try discriminate.
  - simpl. split; [|reflexivity]. repeat split; intros; lia.
Qed.

Lemma after_bounded now flush finish (l : Loop Span) next e :
  1 <= size w ->
  sched_bounded (SchedAfter l flush finish) ->
  backgroundWriter_after w now flush finish l = (next, e) ->
  match next with
  | Some l' => sched_bounded (SchedTop l')
  | None => True
  end /\ Forall batch_ok (flushed e).
Proof.
  intros Hsz (Hc & Hl & Ht & Hf) H. unfold backgroundWriter_after in H.
  destruct flush, finish; simplify_eq/=; (split; [|]);
    try exact I; repeat constructor;
    unfold batch_ok, make, cap, len in *; simpl;
    try specialize (Ht eq_refl); try specialize (Hf eq_refl); try lia.
Qed.

Lemma step_bounded a (m m' : Machine) :
  1 <= size w -> bounded m -> stepw a m = Some m' -> bounded m'.
Proof.
  intros Hsz [Hs Hf] H. destruct a; step_inv H; unfold bounded; simpl;
    rewrite ?flushed_app; simpl; rewrite ?app_nil_r;
    try (split; assumption).
  all: try match goal with
       | |- context [backgroundWriter_select _ _ ?c ?l ?g] =>
           destruct Hs as [Hc Hl];
           destruct (select_bounded c l g Hsz Hc Hl) as [Hb He];
           simpl in Hb; rewrite He, app_nil_r; split; assumption
       end.
  all: try match goal with
       | E : backgroundWriter_after _ _ _ _ _ = _ |- _ =>
           destruct (after_bounded _ _ _ _ _ _ Hsz Hs E) as [Hn He];
           split; [exact Hn | apply Forall_app; split; assumption]
       end.
  - split; [|assumption]. unfold make, cap, len. simpl. lia.
  - split; [|assumption]. destruct Hs as [Hc Hl].
    apply (select_bounded CaseFinish l (metrics m) Hsz Hc Hl).
Qed.

Lemma boot_bounded g : bounded (boot g : Machine).
Proof. split; [exact I | constructor]. Qed.

(** C1. With a batch capacity of at least one, along every execution of
    the writer (any interleaving of [WriteSpan] calls, timer ticks and the
    shutdown signal) every batch handed to the pool through [WriteBatch]
    holds at least one span and at most [size w] spans; no flush, whatever
    triggered it, passes an empty batch. *)
Theorem flushed_batches_bounded acts g (m : Machine) :
  1 <= size w ->
  runw acts (boot g) = Some m ->
  forall b, PoolWriteBatch b ∈ trace m ->
    1 <= Z.of_nat (length b) <= size w.
Proof.
  intros Hsz Hrun b Hb.
  assert (Hinv : bounded m).
  { eapply run_invariant; [|apply boot_bounded|exact Hrun].
    intros a m1 m2 H1 H2. eapply step_bounded; eauto. }
  destruct Hinv as [_ Hf]. rewrite Forall_forall in Hf. apply Hf.
  apply elem_of_flushed. exact Hb.
Qed.

(** *** Where flushed entries come from *)

Lemma select_items Q (c : Case Span) l g :
  Forall Q (items (batch l)) ->
  match c with CaseSpan x => Q x | _ => True end ->
  Forall Q (items (batch (sel_loop (backgroundWriter_select growslice w c l g)))).
Proof.
  intros Hl Hc. destruct c; unfold backgroundWriter_select; simpl;
    repeat match goal with
           | |- context [if ?b then _ else _] => destruct b
           end; simpl; try assumption;
    apply Forall_app; split; auto.
Qed.

Lemma after_items Q now flush finish (l : Loop Span) next e :
  Forall Q (items (batch l)) ->
  backgroundWriter_after w now flush finish l = (next, e) ->
  match next with
  | Some l' => Forall Q (items (batch l'))
  | None => True
  end /\ Forall (Forall Q) (flushed e).
Proof.
  intros Hl H. unfold backgroundWriter_after in H.
  destruct flush, finish; simplify_eq/=; split;
    try exact I; repeat constructor; assumption.
Qed.

Lemma step_items Q a (m m' : Machine) :
  enters Q a -> all_items Q m -> stepw a m = Some m' -> all_items Q m'.
Proof.
  intros Ha (Hq & Hc & Hs & Hf) H.
  destruct a; step_inv H; unfold all_items; simpl;
    rewrite ?flushed_app; simpl; rewrite ?app_nil_r;
    repeat match goal with
           | |- context [backgroundWriter_select _ _ ?c ?l ?g] =>
               rewrite (proj1 (select_no_pool c l g)), ?app_nil_r
           end;
    repeat match goal with
           | E : calls m !! _ = Some (AtSend _ _) |- _ =>
               apply (Forall_lookup_1 _ _ _ _ Hc) in E; simpl in E
           | E : backgroundWriter_after _ _ _ _ _ = _ |- _ =>
               apply (after_items Q) in E as [? ?]; [|assumption]
           | E : Forall Q (_ :: _) |- _ =>
               apply Forall_cons in E as [? ?]
           end;
    repeat split; auto;
    repeat first [ apply Forall_app; split
                 | apply select_items
                 | apply Forall_insert
                 | assumption
                 | exact I
                 | constructor ].
Qed.

Lemma boot_items Q g : all_items Q (boot g).
Proof. repeat split; constructor. Qed.

Lemma run_items Q acts g (m : Machine) :
  Forall (enters Q) acts -> runw acts (boot g) = Some m -> all_items Q m.
Proof.
  intros HA Hrun.
  eapply (run_invariant_on (enters Q)); [|exact HA|apply boot_items|exact Hrun].
  intros a m1 m2. apply step_items.
Qed.

Lemma enters_submitted acts : Forall (enters (submitted acts)) acts.
Proof.
  apply Forall_forall. intros a Ha. destruct a as [ctx sp| | | | | | | | | |];
    try exact I.
  unfold enters, WriteSpan, FromIncomingContext.
  destruct (incoming ctx) as [md|] eqn:Hmd; [|exact I].
  destruct (md_Get md "x-tenant") as [|t0 ts] eqn:Hget; simpl;
    exists ctx, md; unfold tenant_of, WriteSpan, FromIncomingContext;
    rewrite Hmd, Hget; auto.
Qed.

Lemma flushed_submitted acts g (m : Machine) b x :
  runw acts (boot g) = Some m ->
  PoolWriteBatch b ∈ trace m -> x ∈ b -> submitted acts x.
Proof.
  intros Hrun Hb Hx.
  destruct (run_items (submitted acts) acts g m (enters_submitted acts) Hrun)
    as (_ & _ & _ & Hf).
  apply elem_of_flushed in Hb.
  rewrite Forall_forall in Hf. specialize (Hf b Hb).
  rewrite Forall_forall in Hf. auto.
Qed.

(** C7. Every entry of every batch handed to the pool is the very
    [SpanAndTenant] some [WriteSpan] call built: its tenant is the one
    attached at submission, the first value under ["x-tenant"] or the
    empty string when there is none. *)
Theorem flushed_tenant_is_submitted_tenant acts g (m : Machine) b x :
  runw acts (boot g) = Some m ->
  PoolWriteBatch b ∈ trace m -> x ∈ b ->
  exists ctx md,
    ActWriteSpan ctx (span x) ∈ acts /\ incoming ctx = Some md /\
    WriteSpan w ctx (span x) = AtSend x nil_error /\
    tenant x = match md_Get md "x-tenant" with
               | [] => ""
               | t0 :: _ => t0
               end.
Proof.
  intros Hrun Hb Hx.
  destruct (flushed_submitted acts g m b x Hrun Hb Hx)
    as (ctx & md & Hin & Hmd & Hw & Ht).
  exists ctx, md. repeat split; auto.
  rewrite Ht. unfold tenant_of. destruct (md_Get md "x-tenant"); reflexivity.
Qed.

(** C6. A [WriteSpan] call whose context carries no metadata returns
    [nil] without sending anything: the queue and everything else in the
    machine stay as they were.  A span that was only ever submitted that
    way is in no batch handed to the pool, however the execution goes on. *)
Theorem WriteSpan_without_metadata_drops ctx (sp : Span) :
  incoming ctx = None ->
  WriteSpan w ctx sp = Returned nil_error /\
  (forall m : Machine,
     stepw (ActWriteSpan ctx sp) m =
       Some {| spans := spans m; calls := calls m ++ [Returned nil_error];
               closer := closer m; done := done m; sched := sched m;
               metrics := metrics m; trace := trace m |}) /\
  (forall acts g (m : Machine),
     runw acts (boot g) = Some m ->
     (forall ctx', ActWriteSpan ctx' sp ∈ acts -> incoming ctx' = None) ->
     forall b x, PoolWriteBatch b ∈ trace m -> x ∈ b -> span x <> sp).
Proof.
  intros Hctx.
  assert (Hw : WriteSpan w ctx sp = Returned nil_error).
  { unfold WriteSpan, FromIncomingContext. rewrite Hctx. reflexivity. }
  split; [exact Hw|]. split.
  - intros m. simpl. rewrite Hw. reflexivity.
  - intros acts g m Hrun Hall b x Hb Hx Heq.
    destruct (flushed_submitted acts g m b x Hrun Hb Hx)
      as (ctx' & md & Hin & Hmd & _).
    rewrite Heq in Hin. rewrite (Hall ctx' Hin) in Hmd. discriminate.
Qed.

(** *** [WriteSpan] never reports an error *)





(** *** One iteration of the loop *)

Lemma subMono_exact t u : mono t -> mono u -> subMono t u = t - u.
Proof.
  unfold mono, subMono, wrap64. intros Ht Hu.
  assert (H64 : (2 ^ 64 = 2 * 2 ^ 63)%Z) by reflexivity.
  rewrite Z.mod_small by lia.
  replace (t - u + 2 ^ 63 - 2 ^ 63) with (t - u) by lia.
  destruct (Z.ltb_spec (t - u) 0), (Z.ltb_spec u t), (Z.ltb_spec 0 (t - u)),
    (Z.ltb_spec t u); simpl; lia.
Qed.

(** C3. With a capacity of three, the loop receiving A, B, C (no timer
    tick, no shutdown in between) hands exactly one batch to the pool,
    [A; B; C] in arrival order, as a size flush: the size counter goes up
    by one and the timer counter stays.  In general the arrival that
    brings the batch's length to its capacity flushes in that same
    iteration. *)
Theorem size_flush (A B C : SpanAndTenant Span) t1 t2 t3 tm lst g :
  (size w = 3 ->
   exists e,
     backgroundWriter_loop growslice w
       [(CaseSpan A, t1); (CaseSpan B, t2); (CaseSpan C, t3)]
       (mkLoop (make (size w)) tm lst) g
     = (Some (mkLoop (make (size w)) tm t3),
        {| numWritesWithBatchSize := numWritesWithBatchSize g + 1;
           numWritesWithFlushInterval := numWritesWithFlushInterval g |},
        e) /\
     flushed e = [[A; B; C]]) /\
  (forall (l : Loop Span) x now,
     len (batch l) + 1 = cap (batch l) ->
     backgroundWriter_iteration growslice w (CaseSpan x) now l g
     = (Some (mkLoop (make (size w)) (timer l) now),
        {| numWritesWithBatchSize := numWritesWithBatchSize g + 1;
           numWritesWithFlushInterval := numWritesWithFlushInterval g |},
        [DoneAdd; LogDebug "Flush due to batch size";
         PoolWriteBatch (items (batch l) ++ [x]); DoneDone])).
Proof.
  split.
  - intros Hsz. eexists.
    unfold backgroundWriter_loop, backgroundWriter_iteration,
      backgroundWriter_select, backgroundWriter_after, append, make, len, cap.
    rewrite Hsz. simpl. split; reflexivity.
  - intros l x now Hl.
    unfold backgroundWriter_iteration, backgroundWriter_select.
    assert (Hl' : len (append growslice (batch l) x) = len (batch l) + 1).
    { unfold len, append. simpl. rewrite length_app. simpl. lia. }
    assert (Hc : cap (append growslice (batch l) x) = cap (batch l)).
    { unfold append, cap at 1. simpl.
      destruct (Z.leb_spec (len (batch l) + 1) (cap (batch l))); lia. }
    cbv zeta. rewrite Hl', Hc, Hl, Z.eqb_refl. reflexivity.
Qed.

Lemma step_idle a (m m' : Machine) :
  not_a_write a -> idle m -> stepw a m = Some m' -> idle m'.
Proof.
  intros Ha (Hq & Hc & Hf & Hs) H.
  destruct a; try contradiction; step_inv H; unfold idle; simpl;
    rewrite ?flushed_app; simpl; rewrite ?app_nil_r;
    repeat match goal with
           | |- context [flushed (sel_effects (backgroundWriter_select _ _ ?c ?l ?g))] =>
               rewrite (proj1 (select_no_pool c l g)), ?app_nil_r
           | E : calls m !! _ = Some _ |- _ => rewrite Hc in E; discriminate
           | E : ?x :: _ = [] |- _ => discriminate
           | E : [] = ?x :: _ |- _ => discriminate
           end;
    try (repeat split; auto; fail).
  - unfold backgroundWriter_select, len. rewrite Hs. simpl.
    rewrite andb_false_r. simpl. repeat split; auto.
  - unfold len. rewrite Hs. repeat split; auto.
  - destruct Hs as [Hs ->]. unfold backgroundWriter_after in *.
    destruct finish; simplify_eq/=. rewrite Hf. repeat split; auto.
  - destruct Hs as [Hs ->]. unfold backgroundWriter_after in *.
    destruct finish; simplify_eq/=. rewrite Hf. repeat split; auto.
Qed.

(** C4. On a timer tick the timer is armed again with the full delay,
    and the iteration flushes exactly when more than the delay has passed
    since the last flush and the batch is not empty; a flush it does is
    counted as a timer flush.  A tick on an empty batch flushes nothing,
    and an execution without any [WriteSpan] call never hands a batch to
    the pool, whatever the clock says. *)
Theorem timer_tick (l : Loop Span) g now tflush :
  mono (last l) -> mono now ->
  let s := backgroundWriter_select growslice w (CaseTimer now) l g in
  timer (sel_loop s) = delay (workerParams w) /\
  (exists e, sel_effects s = TimeAfter (delay (workerParams w)) :: e /\
             forall d, TimeAfter d ∉ e) /\
  (sel_flush s = true <->
     delay (workerParams w) < now - last l /\ 0 < len (batch l)) /\
  backgroundWriter_iteration growslice w (CaseTimer now) tflush l g
  = (if sel_flush s
     then (Some (mkLoop (make (size w)) (delay (workerParams w)) tflush),
           inc_flush_interval g,
           [DoneAdd; TimeAfter (delay (workerParams w));
            LogDebug "Flush due to timer";
            PoolWriteBatch (items (batch l)); DoneDone])
     else (Some (mkLoop (batch l) (delay (workerParams w)) (last l)), g,
           [DoneAdd; TimeAfter (delay (workerParams w)); DoneDone])) /\
  (len (batch l) = 0 -> sel_flush s = false) /\
  (forall acts g' (m : Machine),
     runw acts (boot g') = Some m ->
     (forall ctx sp, ActWriteSpan ctx sp ∉ acts) ->
     flushed (trace m) = []).
Proof.
  intros Hlast Hnow. cbv zeta.
  unfold backgroundWriter_iteration, backgroundWriter_select, Since.
  rewrite (subMono_exact _ _ Hnow Hlast).
  destruct (Z.ltb_spec (delay (workerParams w)) (now - last l)) as [Hd|Hd];
    destruct (Z.ltb_spec 0 (len (batch l))) as [Hn|Hn]; simpl;
    (split; [reflexivity|]);
    (split; [eexists; split; [reflexivity|];
             intros d; rewrite ?elem_of_cons, elem_of_nil;
             intuition discriminate|]);
    (split; [split; [intros; lia || discriminate | intros; lia || reflexivity]|]);
    (split; [reflexivity|]);
    (split; [intros; lia || reflexivity|]).
  all: intros acts g' m Hrun Hno;
    assert (Hinv : idle m);
    [ apply (run_invariant_on not_a_write idle step_idle acts (boot g') m);
      [ apply Forall_forall; intros [ctx sp| | | | | | | | | |] Ha;
        try exact I; exact (Hno ctx sp Ha)
      | repeat split
      | exact Hrun ]
    | apply Hinv ].
Qed.

(** C5. On the shutdown signal the iteration flushes exactly when the
    batch is not empty, touches neither counter, calls the pool's
    [Close], releases the barrier and leaves the loop: whatever would
    come next is not looked at, and from [SchedExit] the scheduler never
    acts again. *)
Theorem shutdown_signal (l : Loop Span) g now rest :
  let s := backgroundWriter_select growslice w CaseFinish l g in
  let e := [DoneAdd; LogDebug "Finish channel"]
             ++ (if 0 <? len (batch l)
                 then [PoolWriteBatch (items (batch l))] else [])
             ++ [PoolClose; DoneDone] in
  sel_flush s = (0 <? len (batch l)) /\
  sel_finish s = true /\
  sel_metrics s = g /\
  backgroundWriter_iteration growslice w CaseFinish now l g = (None, g, e) /\
  backgroundWriter_loop growslice w ((CaseFinish, now) :: rest) l g
    = (None, g, e) /\
  (forall (m m' : Machine) a,
     sched m = SchedExit -> stepw a m = Some m' ->
     sched m' = SchedExit /\ metrics m' = metrics m /\
     flushed (trace m') = flushed (trace m)).
Proof.
  cbv zeta. unfold backgroundWriter_loop, backgroundWriter_iteration,
    backgroundWriter_select, backgroundWriter_after.
  destruct (0 <? len (batch l)); simpl; repeat (split; [reflexivity|]).
  all: intros m m' a Hex H; destruct a; step_inv H; simpl;
    rewrite ?flushed_app, ?app_nil_r; simpl; rewrite ?app_nil_r;
    try congruence; repeat split; congruence.
Qed.

(** *** Shutdown *)

Lemma select_finish_flag (c : Case Span) l g :
  sel_finish (backgroundWriter_select growslice w c l g)
  = match c with CaseFinish => true | _ => false end.
Proof.
  destruct c; unfold backgroundWriter_select; simpl;
    repeat match goal with
           | |- context [if ?b then _ else _] => destruct b
           end; reflexivity.
Qed.

Lemma after_continue now flush (l : Loop Span) :
  exists l' e, backgroundWriter_after w now flush false l = (Some l', e) /\
               PoolClose ∉ e.
Proof.
  unfold backgroundWriter_after. destruct flush; simpl;
    eexists _, _; (split; [reflexivity|]);
    rewrite ?elem_of_cons, elem_of_nil; intuition discriminate.
Qed.

Lemma after_finish now (l : Loop Span) :
  exists fl, shutdown_flush fl /\
    backgroundWriter_after w now (0 <? len (batch l)) true l
    = (None, fl ++ [PoolClose; DoneDone]).
Proof.
  unfold backgroundWriter_after, shutdown_flush, len.
  destruct (items (batch l)) as [|x b] eqn:E; simpl.
  - exists []. split; [left|]; reflexivity.
  - exists [PoolWriteBatch (x :: b)]. split; [right; eexists; split; eauto|];
      [discriminate | reflexivity].
Qed.

Lemma step_shutdown_inv a (m m' : Machine) :
  shutdown_inv m -> stepw a m = Some m' -> shutdown_inv m'.
Proof.
  intros [Hb Hc] H. unfold shutdown_inv, barrier in *.
  destruct a; unfold step, selected, backgroundWriter_start in H.
  - (* ActWriteSpan *) simplify_eq/=. auto.
  - (* ActSend *)
    destruct (calls m !! i) as [[x e|e]|]; try discriminate.
    destruct (_ <? _); simplify_eq/=. auto.
  - (* ActClose *)
    destruct (closer m) eqn:Ec; simplify_eq/=. auto.
  - (* ActWait *)
    destruct (closer m) eqn:Ec; try discriminate.
    destruct (Z.eqb_spec (done m) 0) as [Hd|]; simplify_eq/=.
    split; [assumption|]. destruct Hc as (t & Ht & [(l & Hs & _)|(Hs & fl & Hfl & Htr)]).
    + rewrite Hs in Hb. lia.
    + repeat split; auto. exists t, fl. repeat split; auto.
      rewrite Htr. list_assoc.
  - (* ActStart *)
    destruct (sched m) eqn:Es; simplify_eq/=. split; [assumption|].
    destruct (closer m) eqn:Ec.
    + destruct Hc as [Hc _]. split; [|exact I].
      rewrite elem_of_app, !elem_of_cons, elem_of_nil. intuition discriminate.
    + destruct Hc as [Hc _]. split; [|exact I].
      rewrite elem_of_app, !elem_of_cons, elem_of_nil. intuition discriminate.
    + destruct Hc as (t & _ & [(l & ? & _)|(? & _)]); discriminate.
    + destruct Hc as (_ & ? & _); discriminate.
  - (* ActAdd *)
    destruct (sched m) eqn:Es; simplify_eq/=. split; [lia|].
    destruct (closer m) eqn:Ec.
    + destruct Hc as [Hc _]. split; [|exact I].
      rewrite elem_of_app, !elem_of_cons, elem_of_nil. intuition discriminate.
    + destruct Hc as [Hc _]. split; [|exact I].
      rewrite elem_of_app, !elem_of_cons, elem_of_nil. intuition discriminate.
    + destruct Hc as (t & _ & [(l' & ? & _)|(? & _)]); discriminate.
    + destruct Hc as (_ & ? & _); discriminate.
  - (* ActRecv *)
    destruct (sched m) eqn:Es; try discriminate.
    destruct (spans m) as [|x buf]; simplify_eq/=. split; [assumption|].
    rewrite select_finish_flag.
    destruct (closer m) eqn:Ec.
    + destruct Hc as [Hc _]. split; [|reflexivity].
      rewrite elem_of_app. intros [?|?]; [auto|].
      eapply (proj2 (select_no_pool _ _ _)); eassumption.
    + destruct Hc as [Hc _]. split; [|reflexivity].
      rewrite elem_of_app. intros [?|?]; [auto|].
      eapply (proj2 (select_no_pool _ _ _)); eassumption.
    + destruct Hc as (t & _ & [(l' & ? & _)|(? & _)]); discriminate.
    + destruct Hc as (_ & ? & _); discriminate.
  - (* ActRecvFrom *)
    destruct (sched m) eqn:Es; try discriminate.
    destruct (spans m) as [|x0 buf]; try discriminate.
    destruct (calls m !! i) as [[x e|e]|]; try discriminate.
    destruct (_ <=? _); simplify_eq/=. split; [assumption|].
    rewrite select_finish_flag.
    destruct (closer m) eqn:Ec.
    + destruct Hc as [Hc _]. split; [|reflexivity].
      rewrite elem_of_app. intros [?|?]; [auto|].
      eapply (proj2 (select_no_pool _ _ _)); eassumption.
    + destruct Hc as [Hc _]. split; [|reflexivity].
      rewrite elem_of_app. intros [?|?]; [auto|].
      eapply (proj2 (select_no_pool _ _ _)); eassumption.
    + destruct Hc as (t & _ & [(l' & ? & _)|(? & _)]); discriminate.
    + destruct Hc as (_ & ? & _); discriminate.
  - (* ActTick *)
    destruct (sched m) eqn:Es; simplify_eq/=. split; [assumption|].
    rewrite select_finish_flag.
    destruct (closer m) eqn:Ec.
    + destruct Hc as [Hc _]. split; [|reflexivity].
      rewrite elem_of_app. intros [?|?]; [auto|].
      eapply (proj2 (select_no_pool _ _ _)); eassumption.
    + destruct Hc as [Hc _]. split; [|reflexivity].
      rewrite elem_of_app. intros [?|?]; [auto|].
      eapply (proj2 (select_no_pool _ _ _)); eassumption.
    + destruct Hc as (t & _ & [(l' & ? & _)|(? & _)]); discriminate.
    + destruct Hc as (_ & ? & _); discriminate.
  - (* ActFinish *)
    destruct (sched m) eqn:Es; try discriminate.
    destruct (closer m) eqn:Ec; simplify_eq/=. split; [assumption|].
    destruct Hc as [Hc _]. exists (trace m). split; [assumption|].
    left. exists l. split; reflexivity.
  - (* ActAfter *)
    destruct (sched m) eqn:Es; try discriminate.
    destruct (closer m) eqn:Ec.
    + destruct Hc as [Hc ->].
      destruct (after_continue now flush l) as (l' & e & Heq & He).
      rewrite Heq in H. simplify_eq/=. rewrite ?Ec. split; [lia|]. split; [|exact I].
      rewrite elem_of_app. tauto.
    + destruct Hc as [Hc ->].
      destruct (after_continue now flush l) as (l' & e & Heq & He).
      rewrite Heq in H. simplify_eq/=. rewrite ?Ec. split; [lia|]. split; [|exact I].
      rewrite elem_of_app. tauto.
    + destruct Hc as (t & Ht & [(l' & Hs & Htr)|(? & _)]); [|discriminate].
      simplify_eq. destruct (after_finish now l') as (fl & Hfl & Heq).
      rewrite Heq in H. simplify_eq/=. rewrite ?Ec. split; [lia|].
      exists t. split; [assumption|]. right. split; [reflexivity|].
      exists fl. split; [assumption|]. rewrite Htr. list_assoc.
    + destruct Hc as (_ & ? & _); discriminate.
Qed.

Lemma boot_shutdown_inv g : shutdown_inv (boot g).
Proof.
  split; [reflexivity|]. simpl. split; [apply not_elem_of_nil | exact I].
Qed.

(** C2, as the code has it.  [Close] sends the shutdown signal and waits
    on the barrier.  The pool's [Close] is called by the scheduler inside
    the shutdown iteration, after the flush of the batch in progress (if
    there is one) and before the barrier is released: whenever [Close]
    has returned, it returned [nil], the loop has ended, and the trace
    ends with the signal's receipt, at most one non-empty batch, the
    pool's [Close], the barrier's release and the return, in this order.
    When the scheduler holds [A] in its batch at the moment it takes the
    signal, that batch is [[A]], flushed once and counted by neither
    counter. *)
Theorem Close_returns_after_shutdown_iteration :
  (forall acts g (m : Machine) e,
     runw acts (boot g) = Some m -> closer m = CloseDone e ->
     e = nil_error /\ sched m = SchedExit /\ done m = 0 /\
     exists t fl, (PoolClose ∉ t) /\ shutdown_flush fl /\
       trace m = t ++ [finish_log] ++ fl
                   ++ [PoolClose; DoneDone; CloseReturn nil_error]) /\
  (forall (m : Machine) l now,
     sched m = SchedSelect l -> closer m = CloseSending -> done m = 1 ->
     exists m',
       runw [ActFinish; ActAfter now; ActWait] m = Some m' /\
       closer m' = CloseDone nil_error /\ metrics m' = metrics m /\
       trace m' = trace m ++ [finish_log]
                    ++ (if 0 <? len (batch l)
                        then [PoolWriteBatch (items (batch l))] else [])
                    ++ [PoolClose; DoneDone; CloseReturn nil_error]) /\
  (forall (m : Machine) l A now,
     sched m = SchedSelect l -> items (batch l) = [A] ->
     closer m = CloseSending -> done m = 1 ->
     exists m',
       runw [ActFinish; ActAfter now; ActWait] m = Some m' /\
       closer m' = CloseDone nil_error /\ metrics m' = metrics m /\
       trace m' = trace m ++ [finish_log; PoolWriteBatch [A]; PoolClose;
                              DoneDone; CloseReturn nil_error]).
Proof.
  assert (Hgen : forall (m : Machine) l now,
     sched m = SchedSelect l -> closer m = CloseSending -> done m = 1 ->
     exists m',
       runw [ActFinish; ActAfter now; ActWait] m = Some m' /\
       closer m' = CloseDone nil_error /\ metrics m' = metrics m /\
       trace m' = trace m ++ [finish_log]
                    ++ (if 0 <? len (batch l)
                        then [PoolWriteBatch (items (batch l))] else [])
                    ++ [PoolClose; DoneDone; CloseReturn nil_error]).
  { intros m l now Hs Hc Hd. unfold run, step, selected.
    rewrite Hs, Hc. simpl. unfold backgroundWriter_after.
    rewrite Hd. simpl.
    destruct (0 <? len (batch l)); simpl; eexists;
      (split; [reflexivity|]); simpl; repeat split; list_assoc. }
  split; [|split; [exact Hgen|]].
  - intros acts g m e Hrun Hc.
    assert (Hinv : shutdown_inv m).
    { apply (run_invariant shutdown_inv step_shutdown_inv acts (boot g) m);
        [apply boot_shutdown_inv | exact Hrun]. }
    destruct Hinv as [Hb Hinv]. rewrite Hc in Hinv.
    destruct Hinv as (-> & Hs & t & fl & Ht & Hfl & Htr).
    unfold barrier in Hb. rewrite Hs in Hb. repeat split; auto.
    exists t, fl. auto.
  - intros m l A now Hs Hl Hc Hd.
    destruct (Hgen m l now Hs Hc Hd) as (m' & Hr & Hc' & Hm & Ht).
    exists m'. repeat split; auto. rewrite Ht. unfold len. rewrite Hl.
    reflexivity.
Qed.

(** *** More on one iteration *)

Lemma append_room (b : Slice Span) x :
  len b < cap b ->
  append growslice b x = mkSlice (items b ++ [x]) (cap b).
Proof.
  intros H. unfold append.
  destruct (Z.leb_spec (len b + 1) (cap b)); [reflexivity | lia].
Qed.

(** X5. While the batch has room, a span arrival flushes if and only if
    it fills the batch; an arrival that leaves room only appends the span:
    nothing goes to the pool, no counter moves and the time of the last
    flush stays. *)
Theorem span_arrival_flushes_iff_full (l : Loop Span) x g now :
  len (batch l) < cap (batch l) ->
  (sel_flush (backgroundWriter_select growslice w (CaseSpan x) l g) = true
   <-> len (batch l) + 1 = cap (batch l)) /\
  (len (batch l) + 1 < cap (batch l) ->
   backgroundWriter_iteration growslice w (CaseSpan x) now l g
   = (Some (mkLoop (mkSlice (items (batch l) ++ [x]) (cap (batch l)))
              (timer l) (last l)),
      g, [DoneAdd; DoneDone])).
Proof.
  intros Hroom.
  unfold backgroundWriter_iteration, backgroundWriter_select.
  rewrite (append_room _ x Hroom). cbv zeta.
  assert (Hl : len (mkSlice (items (batch l) ++ [x]) (cap (batch l)))
               = len (batch l) + 1).
  { unfold len. simpl. rewrite length_app. simpl. lia. }
  rewrite Hl. change (cap (mkSlice (items (batch l) ++ [x]) (cap (batch l))))
    with (cap (batch l)).
  destruct (Z.eqb_spec (len (batch l) + 1) (cap (batch l))) as [He|Hne];
    simpl; split.
  - split; auto.
  - intros. lia.
  - split; [discriminate | intros; contradiction].
  - intros _. reflexivity.
Qed.

(** X6. With metadata that has values under ["x-tenant"], [WriteSpan]
    sends the span, untouched, with the first of them.  Nothing else in
    the request matters: two contexts whose ["x-tenant"] lists start with
    the same value (or are both empty) make the same call, whatever their
    other keys and whatever writer is used. *)
Theorem WriteSpan_reads_first_tenant_only ctx md (sp : Span) t0 ts :
  incoming ctx = Some md ->
  md !! "x-tenant" = Some (t0 :: ts) ->
  WriteSpan w ctx sp = AtSend (mkSpanAndTenant sp t0) nil_error /\
  (forall md1 md2 (w1 w2 : SpanWriter),
     head (md_Get md1 "x-tenant") = head (md_Get md2 "x-tenant") ->
     WriteSpan w1 (mkCtx (Some md1)) sp = WriteSpan w2 (mkCtx (Some md2)) sp).
Proof.
  intros Hctx Hkey. split.
  - unfold WriteSpan, FromIncomingContext, md_Get. rewrite Hctx, Hkey.
    reflexivity.
  - intros md1 md2 w1 w2 Hhead. unfold WriteSpan, FromIncomingContext. simpl.
    destruct (md_Get md1 "x-tenant"), (md_Get md2 "x-tenant");
      simpl in Hhead; congruence.
Qed.

(** *** The barrier, the queue, the end of the loop *)

(** X2. Along every execution the wait group's counter is 0 or 1, and it
    is 1 exactly while an iteration of the loop is under way; [Done] never
    takes it below zero. *)
Theorem barrier_counter acts g (m : Machine) :
  runw acts (boot g) = Some m ->
  0 <= done m <= 1 /\
  (done m = 1 <-> match sched m with
                  | SchedSelect _ | SchedAfter _ _ _ => True
                  | _ => False
                  end).
Proof.
  intros Hrun.
  assert (Hinv : shutdown_inv m).
  { apply (run_invariant shutdown_inv step_shutdown_inv acts (boot g) m);
      [apply boot_shutdown_inv | exact Hrun]. }
  destruct Hinv as [Hb _]. unfold barrier in Hb.
  destruct (sched m); rewrite Hb; (split; [lia|]); split;
    intros; try lia; try contradiction; exact I.
Qed.

Lemma step_queue_bounded a (m m' : Machine) :
  Z.of_nat (length (spans m)) <= size w -> stepw a m = Some m' ->
  Z.of_nat (length (spans m')) <= size w.
Proof.
  intros Hq H. destruct a; step_inv H; try assumption;
    rewrite ?length_app in *; simpl in *; lia.
Qed.

(** X7. The queue never holds more than [size w] entries, and it is the
    only thing that holds a producer back: a call at its send is refused
    exactly when the queue is full. *)
Theorem queue_bounded acts g (m : Machine) :
  0 <= size w ->
  runw acts (boot g) = Some m ->
  Z.of_nat (length (spans m)) <= size w /\
  (forall i x e,
     calls m !! i = Some (AtSend x e) ->
     (stepw (ActSend i) m = None <-> Z.of_nat (length (spans m)) = size w)).
Proof.
  intros Hsz Hrun.
  assert (Hq : Z.of_nat (length (spans m)) <= size w).
  { apply (run_invariant (fun m => Z.of_nat (length (spans m)) <= size w)
             step_queue_bounded acts (boot g) m); [simpl; lia | exact Hrun]. }
  split; [exact Hq|]. intros i x e Hi. simpl. rewrite Hi.
  destruct (Z.ltb_spec (Z.of_nat (length (spans m))) (size w)); split;
    intros; try discriminate; try reflexivity; lia.
Qed.

Lemma step_after_exit a (m m' : Machine) :
  sched m = SchedExit -> stepw a m = Some m' ->
  sched m' = SchedExit /\ flushed (trace m') = flushed (trace m) /\
  metrics m' = metrics m /\ spans m `prefix_of` spans m'.
Proof.
  intros Hex H. destruct a; step_inv H; simpl;
    rewrite ?flushed_app, ?app_nil_r; simpl; rewrite ?app_nil_r;
    try congruence; repeat split; try congruence; try reflexivity.
  eexists. reflexivity.
Qed.

(** X8. Once the loop has ended nothing more reaches the pool: however
    the execution goes on, the batches handed over and the counters stay
    what they were, and what is in the queue or gets into it afterwards
    stays there. *)
Theorem after_exit_nothing_is_flushed acts (m m' : Machine) :
  sched m = SchedExit ->
  runw acts m = Some m' ->
  sched m' = SchedExit /\ flushed (trace m') = flushed (trace m) /\
  metrics m' = metrics m /\ spans m `prefix_of` spans m'.
Proof.
  revert m. induction acts as [|a acts IH]; intros m Hex Hrun.
  - simpl in Hrun. injection Hrun as <-. repeat split; auto.
  - simpl in Hrun. destruct (stepw a m) as [m1|] eqn:E; [|discriminate].
    simpl in Hrun.
    destruct (step_after_exit a m m1 Hex E) as (H1 & H2 & H3 & H4).
    destruct (IH m1 H1 Hrun) as (K1 & K2 & K3 & K4).
    repeat split; try congruence. etrans; eassumption.
Qed.

(** *** From the queue to the pool *)

Lemma select_batch_items (c : Case Span) l g :
  items (batch (sel_loop (backgroundWriter_select growslice w c l g)))
  = items (batch l) ++ match c with CaseSpan x => [x] | _ => [] end.
Proof.
  destruct c; unfold backgroundWriter_select; simpl;
    repeat match goal with
           | |- context [if ?b then _ else _] => destruct b
           end; simpl; rewrite ?app_nil_r; reflexivity.
Qed.

Lemma step_finish_flag_ok a (m m' : Machine) :
  stepw a m = Some m' -> finish_flag_ok m -> finish_flag_ok m'.
Proof.
  intros H Hf. unfold finish_flag_ok in *.
  destruct a; step_inv H; try assumption; try exact I;
    try (rewrite select_finish_flag; exact I); try reflexivity.
Qed.

Lemma after_pipeline now flush finish (l : Loop Span) next e :
  (finish = true -> flush = (0 <? len (batch l))) ->
  backgroundWriter_after w now flush finish l = (next, e) ->
  concat (flushed e) ++ match next with
                        | Some l' => items (batch l')
                        | None => []
                        end
  = items (batch l).
Proof.
  intros Hf H. unfold backgroundWriter_after in H.
  destruct flush, finish; simplify_eq/=; rewrite ?app_nil_r; try reflexivity.
  specialize (Hf eq_refl). unfold len in Hf.
  destruct (items (batch l)); [reflexivity | discriminate].
Qed.

Lemma step_pipeline a (m m' : Machine) :
  finish_flag_ok m -> stepw a m = Some m' ->
  concat (flushed (trace m')) ++ batch_of (sched m') ++ spans m'
  = (concat (flushed (trace m)) ++ batch_of (sched m) ++ spans m)
      ++ sent_by a m.
Proof.
  intros Hf H. unfold finish_flag_ok in Hf.
  destruct a; step_inv H; simpl;
    rewrite ?flushed_app; simpl;
    repeat match goal with
           | |- context [flushed (sel_effects
                           (backgroundWriter_select _ _ ?c ?l ?g))] =>
               rewrite (proj1 (select_no_pool c l g))
           | |- context [items (batch (sel_loop
                           (backgroundWriter_select _ _ ?c ?l ?g)))] =>
               rewrite (select_batch_items c l g)
           | E : sched m = _ |- _ => rewrite E in *; clear E
           | E : spans m = _ |- _ => rewrite E in *; clear E
           | E : calls m !! _ = _ |- _ => rewrite E in *; clear E
           end; simpl;
    rewrite ?app_nil_r; try reflexivity;
    try (repeat (rewrite <- ?app_assoc; simpl); reflexivity).
  all: match goal with
       | E : backgroundWriter_after _ _ ?fl ?fi ?l = (?next, ?e) |- _ =>
           assert (Hfl : fi = true -> fl = (0 <? len (batch l)))
             by (intros ->; exact Hf);
           pose proof (after_pipeline _ _ _ _ _ _ Hfl E) as Hp;
           simpl in Hp
       end.
  - rewrite concat_app, <- !app_assoc, (app_assoc (concat (flushed l0))), Hp.
    reflexivity.
  - rewrite app_nil_r in Hp. rewrite concat_app, <- !app_assoc.
    simpl. rewrite Hp. reflexivity.
Qed.

Lemma run_pipeline acts (m m' : Machine) :
  finish_flag_ok m -> runw acts m = Some m' ->
  concat (flushed (trace m')) ++ batch_of (sched m') ++ spans m'
  = (concat (flushed (trace m)) ++ batch_of (sched m) ++ spans m)
      ++ delivered acts m.
Proof.
  revert m. induction acts as [|a acts IH]; intros m Hf Hrun; simpl in *.
  - injection Hrun as <-. rewrite app_nil_r. reflexivity.
  - destruct (stepw a m) as [m1|] eqn:E; [|discriminate]. simpl in Hrun.
    rewrite (IH m1 (step_finish_flag_ok a m m1 E Hf) Hrun).
    rewrite (step_pipeline a m m1 Hf E), <- !app_assoc. reflexivity.
Qed.

(** X1. Nothing is lost, doubled or reordered on the way from the queue
    to the pool: at any point of any execution the batches handed to the
    pool, in order, followed by the batch in progress and by the queue,
    are exactly the entries sent on [w.spans] so far, in the order their
    sends completed. *)
Theorem queue_to_pool_in_order acts g (m : Machine) :
  runw acts (boot g) = Some m ->
  concat (flushed (trace m)) ++ batch_of (sched m) ++ spans m
  = delivered acts (boot g).
Proof.
  intros Hrun. rewrite (run_pipeline acts (boot g) m I Hrun). reflexivity.
Qed.

(** *** Counters and the pool's life *)

Lemma select_counts (c : Case Span) l g :
  let s := backgroundWriter_select growslice w c l g in
  numWritesWithBatchSize g <= numWritesWithBatchSize (sel_metrics s) /\
  numWritesWithFlushInterval g <= numWritesWithFlushInterval (sel_metrics s) /\
  numWritesWithBatchSize (sel_metrics s)
    + numWritesWithFlushInterval (sel_metrics s)
  = numWritesWithBatchSize g + numWritesWithFlushInterval g
    + (if sel_flush s && negb (sel_finish s) then 1 else 0).
Proof.
  destruct c as [x|now|]; unfold backgroundWriter_select; simpl.
  - destruct (_ =? _); simpl; lia.
  - destruct (_ && _); simpl; lia.
  - rewrite andb_false_r. lia.
Qed.

Lemma after_counts now flush finish (l : Loop Span) next e :
  backgroundWriter_after w now flush finish l = (next, e) ->
  length (flushed e) = (if flush then 1 else 0)%nat /\
  (next = None <-> finish = true).
Proof.
  unfold backgroundWriter_after. intros H.
  destruct flush, finish; simplify_eq/=; split; try reflexivity;
    split; congruence.
Qed.

Lemma step_flush_accounting g a (m m' : Machine) :
  flush_accounting g m -> stepw a m = Some m' -> flush_accounting g m'.
Proof.
  unfold flush_accounting, counted. intros (H1 & H2 & H3) H.
  destruct a; step_inv H; simpl;
    rewrite ?flushed_app, ?length_app; simpl;
    repeat match goal with
           | |- context [flushed (sel_effects
                           (backgroundWriter_select _ _ ?c ?l ?g))] =>
               rewrite (proj1 (select_no_pool c l g))
           | E : sched m = _ |- _ => rewrite E in *; clear E
           end; simpl; rewrite ?Nat.add_0_r;
    try (repeat split; assumption).
  all: try match goal with
       | |- context [backgroundWriter_select _ _ ?c ?l ?g] =>
           pose proof (select_counts c l g) as Hc; simpl in Hc;
           repeat split; lia
       end.
  all: try (rewrite andb_false_r; repeat split; lia).
  all: match goal with
       | E : backgroundWriter_after _ _ _ _ _ = _ |- _ =>
           apply after_counts in E as [He Hn]; rewrite He
       end.
  - assert (finish = false)
      by (destruct finish;
          [pose proof (proj2 Hn eq_refl); discriminate | reflexivity]).
    subst. destruct flush; simpl in *; repeat split; lia.
  - assert (finish = true) by (apply Hn; reflexivity).
    subst. destruct flush; simpl in *; repeat split; lia.
Qed.

(** X4. The counters never go down, and they account for the batches
    handed to the pool: between iterations the two counters together
    moved as often as batches were handed over; a size or timer flush is
    counted in the [select] and handed over right after it; after the
    loop the only batch that may be uncounted is the one flushed at
    shutdown. *)
Theorem counters_account_for_flushes acts g (m : Machine) :
  runw acts (boot g) = Some m ->
  numWritesWithBatchSize g <= numWritesWithBatchSize (metrics m) /\
  numWritesWithFlushInterval g <= numWritesWithFlushInterval (metrics m) /\
  match sched m with
  | SchedInit | SchedTop _ | SchedSelect _ =>
      counted g m = Z.of_nat (length (flushed (trace m)))
  | SchedAfter _ flush finish =>
      counted g m = Z.of_nat (length (flushed (trace m)))
                    + (if flush && negb finish then 1 else 0)
  | SchedExit =>
      Z.of_nat (length (flushed (trace m))) - 1 <= counted g m
      <= Z.of_nat (length (flushed (trace m)))
  end.
Proof.
  intros Hrun.
  apply (run_invariant (flush_accounting g) (step_flush_accounting g)
           acts (boot g) m); [|exact Hrun].
  unfold flush_accounting, counted. simpl. lia.
Qed.

Lemma select_in_loop (c : Case Span) l g :
  Forall in_loop (sel_effects (backgroundWriter_select growslice w c l g)).
Proof.
  destruct c; unfold backgroundWriter_select; simpl;
    repeat match goal with
           | |- context [if ?b then _ else _] => destruct b
           end; simpl; repeat constructor.
Qed.

Lemma after_in_loop now flush finish (l : Loop Span) next e :
  backgroundWriter_after w now flush finish l = (next, e) ->
  if finish
  then next = None /\
       exists fl, e = fl ++ [PoolClose; DoneDone] /\ Forall in_loop fl
  else (exists l', next = Some l') /\ Forall in_loop e.
Proof.
  unfold backgroundWriter_after. intros H.
  destruct flush, finish; simplify_eq/=.
  - split; [reflexivity|]. exists [PoolWriteBatch (items (batch l))].
    split; [reflexivity | repeat constructor].
  - split; [eexists; reflexivity | repeat constructor].
  - split; [reflexivity|]. exists []. split; [reflexivity | constructor].
  - split; [eexists; reflexivity | repeat constructor].
Qed.

Lemma step_pool_life a (m m' : Machine) :
  shutdown_inv m -> pool_life m -> stepw a m = Some m' -> pool_life m'.
Proof.
  intros [Hb Hs] Hp H. unfold pool_life, barrier in *.
  destruct a; unfold step, selected, backgroundWriter_start in H.
  - (* ActWriteSpan *) simplify_eq/=. exact Hp.
  - (* ActSend *)
    destruct (calls m !! i) as [[x e|e]|]; try discriminate.
    destruct (_ <? _); simplify_eq/=. exact Hp.
  - (* ActClose *)
    destruct (closer m) eqn:Ec; simplify_eq/=.
    destruct (sched m); try exact Hp; destruct Hs as [_ []].
  - (* ActWait *)
    destruct (closer m) eqn:Ec; try discriminate.
    destruct (Z.eqb_spec (done m) 0) as [Hd|]; simplify_eq/=.
    destruct Hs as (t & _ & [(l & Hsl & _)|(Hex & _)]).
    + rewrite Hsl in Hb. lia.
    + rewrite Hex in *. destruct Hp as (body & Htr & Hq).
      exists body. split; [|exact Hq]. rewrite Htr. list_assoc.
  - (* ActStart *)
    destruct (sched m) eqn:Es; simplify_eq/=. rewrite Hp.
    exists []. split; [reflexivity | constructor].
  - (* ActAdd *)
    destruct (sched m) eqn:Es; simplify_eq/=.
    destruct Hp as (body & Htr & Hq). exists (body ++ [DoneAdd]).
    split; [rewrite Htr; list_assoc|].
    apply Forall_app; split; [exact Hq | repeat constructor].
  - (* ActRecv *)
    destruct (sched m) eqn:Es; try discriminate.
    destruct (spans m) as [|x buf]; simplify_eq/=.
    destruct Hp as (body & Htr & Hq).
    match goal with
    | |- context [backgroundWriter_select _ _ ?c ?l ?g] =>
        exists (body ++ sel_effects (backgroundWriter_select growslice w c l g))
    end.
    split; [rewrite Htr; list_assoc|].
    apply Forall_app; split; [exact Hq | apply select_in_loop].
  - (* ActRecvFrom *)
    destruct (sched m) eqn:Es; try discriminate.
    destruct (spans m) as [|x0 buf]; try discriminate.
    destruct (calls m !! i) as [[x e|e]|]; try discriminate.
    destruct (_ <=? _); simplify_eq/=.
    destruct Hp as (body & Htr & Hq).
    match goal with
    | |- context [backgroundWriter_select _ _ ?c ?l ?g] =>
        exists (body ++ sel_effects (backgroundWriter_select growslice w c l g))
    end.
    split; [rewrite Htr; list_assoc|].
    apply Forall_app; split; [exact Hq | apply select_in_loop].
  - (* ActTick *)
    destruct (sched m) eqn:Es; simplify_eq/=.
    destruct Hp as (body & Htr & Hq).
    match goal with
    | |- context [backgroundWriter_select _ _ ?c ?l ?g] =>
        exists (body ++ sel_effects (backgroundWriter_select growslice w c l g))
    end.
    split; [rewrite Htr; list_assoc|].
    apply Forall_app; split; [exact Hq | apply select_in_loop].
  - (* ActFinish *)
    destruct (sched m) eqn:Es; try discriminate.
    destruct (closer m) eqn:Ec; simplify_eq/=.
    destruct Hp as (body & Htr & Hq). exists (body ++ [finish_log]).
    split; [rewrite Htr; list_assoc|].
    apply Forall_app; split; [exact Hq | repeat constructor].
  - (* ActAfter *)
    destruct (sched m) eqn:Es; try discriminate.
    destruct (backgroundWriter_after w now flush finish l) as [next e] eqn:Ea.
    apply after_in_loop in Ea. simplify_eq/=.
    destruct Hp as (body & Htr & Hq). destruct finish.
    + destruct Ea as (-> & fl & -> & Hfl).
      assert (Hc : closer m = CloseWaiting).
      { destruct (closer m) eqn:Ec; try reflexivity.
        - destruct Hs as [_ ?]; discriminate.
        - destruct Hs as [_ ?]; discriminate.
        - destruct Hs as (_ & ? & _); discriminate. }
      rewrite Hc. exists (body ++ fl). split; [rewrite Htr; list_assoc|].
      apply Forall_app; split; assumption.
    + destruct Ea as ((l' & ->) & He). exists (body ++ e).
      split; [rewrite Htr; list_assoc|].
      apply Forall_app; split; assumption.
Qed.

(** X3. The pool is created and started once, before anything else the
    goroutine does, and shut down at most once, by the iteration that
    ends the loop: the trace is empty before the goroutine has run; it is
    the three effects of lines 95-99 followed by iterations while the
    loop runs; and after the loop it ends with the pool's [Close], the
    barrier's release and, when [Close] has returned, that return.  No
    batch is handed to the pool after the pool was closed. *)
Theorem pool_created_once_closed_last acts g (m : Machine) :
  runw acts (boot g) = Some m ->
  match sched m with
  | SchedInit => trace m = []
  | SchedTop _ | SchedSelect _ | SchedAfter _ _ _ =>
      exists body, trace m = start_effects ++ body /\ Forall in_loop body
  | SchedExit =>
      exists body,
        trace m = start_effects ++ body ++ [PoolClose; DoneDone]
                    ++ match closer m with
                       | CloseDone e => [CloseReturn e]
                       | _ => []
                       end /\
        Forall in_loop body
  end.
Proof.
  intros Hrun.
  assert (Hinv : shutdown_inv m /\ pool_life m).
  { apply (run_invariant (fun m => shutdown_inv m /\ pool_life m))
      with acts (boot g); [| |exact Hrun].
    - intros a m1 m2 [H1 H2] Hstep. split.
      + exact (step_shutdown_inv a m1 m2 H1 Hstep).
      + exact (step_pool_life a m1 m2 H1 H2 Hstep).
    - split; [apply boot_shutdown_inv | reflexivity]. }
  exact (proj2 Hinv).
Qed.

(** *** Batching by size *)

Lemma iteration_span (l : Loop Span) x g now :
  len (batch l) < cap (batch l) ->
  backgroundWriter_iteration growslice w (CaseSpan x) now l g
  = if len (batch l) + 1 =? cap (batch l)
    then (Some (mkLoop (make (size w)) (timer l) now), inc_batch_size g,
          [DoneAdd; LogDebug "Flush due to batch size";
           PoolWriteBatch (items (batch l) ++ [x]); DoneDone])
    else (Some (mkLoop (mkSlice (items (batch l) ++ [x]) (cap (batch l)))
                  (timer l) (last l)),
          g, [DoneAdd; DoneDone]).
Proof.
  intros Hroom.
  unfold backgroundWriter_iteration, backgroundWriter_select.
  rewrite (append_room _ x Hroom). cbv zeta.
  assert (Hl : len (mkSlice (items (batch l) ++ [x]) (cap (batch l)))
               = len (batch l) + 1).
  { unfold len. simpl. rewrite length_app. simpl. lia. }
  rewrite Hl. change (cap (mkSlice (items (batch l) ++ [x]) (cap (batch l))))
    with (cap (batch l)).
  destruct (len (batch l) + 1 =? cap (batch l)); reflexivity.
Qed.

(** X10. Fed with span arrivals only, the loop cuts the stream into full
    batches: every batch it hands to the pool holds exactly [size w]
    entries, the batches in order followed by the batch left in progress
    are the entries it started with followed by the arrivals, the batch
    in progress is never full, and the size counter goes up by the number
    of batches while the timer counter stays. *)
Theorem arrivals_are_cut_into_full_batches xs (l : Loop Span) g :
  1 <= size w ->
  cap (batch l) = size w -> len (batch l) < size w ->
  exists l' e,
    backgroundWriter_loop growslice w (arrivals xs) l g
    = (Some l',
       {| numWritesWithBatchSize :=
            numWritesWithBatchSize g + Z.of_nat (length (flushed e));
          numWritesWithFlushInterval := numWritesWithFlushInterval g |},
       e) /\
    concat (flushed e) ++ items (batch l') = items (batch l) ++ map fst xs /\
    Forall (fun b => Z.of_nat (length b) = size w) (flushed e) /\
    cap (batch l') = size w /\ len (batch l') < size w.
Proof.
  intros Hsz. revert l g.
  induction xs as [|[x t] xs IH]; intros l g Hcap Hlen.
  - exists l, []. simpl. rewrite Z.add_0_r, app_nil_r. destruct g.
    repeat split; auto.
  - simpl. rewrite iteration_span by lia.
    destruct (Z.eqb_spec (len (batch l) + 1) (cap (batch l))) as [He|Hne].
    + destruct (IH (mkLoop (make (size w)) (timer l) t) (inc_batch_size g))
        as (l' & e & Hloop & Hcat & Hall & Hc' & Hl');
        [reflexivity | unfold len; simpl; lia |].
      rewrite Hloop.
      exists l', ([DoneAdd; LogDebug "Flush due to batch size";
                   PoolWriteBatch (items (batch l) ++ [x]); DoneDone] ++ e).
      split; [|split; [|split; [|split]]]; try assumption.
      * simpl. do 2 f_equal. f_equal. cbn. lia.
      * simpl in *. rewrite <- app_assoc, Hcat. rewrite <- app_assoc.
        reflexivity.
      * simpl. constructor; [|exact Hall].
        rewrite length_app. simpl. unfold len in He. lia.
    + assert (Hl1 : len (mkSlice (items (batch l) ++ [x]) (cap (batch l)))
                    = len (batch l) + 1).
      { unfold len. simpl. rewrite length_app. simpl. lia. }
      destruct (IH (mkLoop (mkSlice (items (batch l) ++ [x]) (cap (batch l)))
                      (timer l) (last l)) g)
        as (l' & e & Hloop & Hcat & Hall & Hc' & Hl');
        [exact Hcap | simpl; rewrite Hl1; lia |].
      rewrite Hloop. exists l', ([DoneAdd; DoneDone] ++ e).
      split; [|split; [|split; [|split]]]; try assumption.
      * reflexivity.
      * simpl in *. rewrite Hcat, <- app_assoc. reflexivity.
Qed.

(** *** Flushing by timer *)

Lemma ticks_on_empty_batch ts (l : Loop Span) g :
  len (batch l) = 0 ->
  exists l' e,
    backgroundWriter_loop growslice w (ticks ts) l g = (Some l', g, e) /\
    flushed e = [] /\ batch l' = batch l /\ last l' = last l.
Proof.
  revert l. induction ts as [|[now tf] ts IH]; intros l Hl.
  - exists l, []. repeat split.
  - simpl. unfold backgroundWriter_iteration, backgroundWriter_select.
    rewrite Hl. rewrite andb_false_r. simpl.
    unfold backgroundWriter_after. simpl.
    destruct (IH (mkLoop (batch l) (delay (workerParams w)) (last l)) Hl)
      as (l' & e & Hloop & He & Hb & Hlast).
    rewrite Hloop.
    exists l', ([DoneAdd; TimeAfter (delay (workerParams w)); DoneDone] ++ e).
    repeat split; assumption.
Qed.

(** X11. A timer flush is not repeated: when a tick finds a non-empty
    batch and more than the delay has passed since the last flush, it
    hands the whole batch to the pool, counted once as a timer flush, and
    however many ticks follow with no arrival in between, nothing more is
    flushed. *)
Theorem timer_flush_happens_once ts (l : Loop Span) g now tf :
  mono (last l) -> mono now ->
  delay (workerParams w) < now - last l ->
  0 < len (batch l) ->
  exists l' e,
    backgroundWriter_loop growslice w ((CaseTimer now, tf) :: ticks ts) l g
    = (Some l', inc_flush_interval g, e) /\
    flushed e = [items (batch l)] /\
    batch l' = make (size w) /\ last l' = tf.
Proof.
  intros Hlast Hnow Hd Hn. simpl.
  unfold backgroundWriter_iteration, backgroundWriter_select, Since.
  rewrite (subMono_exact _ _ Hnow Hlast).
  destruct (Z.ltb_spec (delay (workerParams w)) (now - last l)); [|lia].
  destruct (Z.ltb_spec 0 (len (batch l))); [|lia]. simpl.
  unfold backgroundWriter_after. simpl.
  destruct (ticks_on_empty_batch ts
              (mkLoop (make (size w)) (delay (workerParams w)) tf)
              (inc_flush_interval g) eq_refl)
    as (l' & e & Hloop & He & Hb & Hl').
  rewrite Hloop. eexists l', _. split; [reflexivity|].
  simpl. rewrite He. repeat split; assumption.
Qed.

(** *** Progress *)

Lemma run_app acts1 acts2 (m : Machine) :
  runw (acts1 ++ acts2) m = m' ← runw acts1 m; runw acts2 m'.
Proof.
  revert m. induction acts1 as [|a acts1 IH]; intros m; simpl.
  - reflexivity.
  - destruct (stepw a m) as [m1|]; simpl; [apply IH | reflexivity].
Qed.

(** The scheduler can always get to its [select], unless it has taken
    the shutdown signal; producers and [Close] are left alone. *)
Lemma reach_select (m : Machine) (now : Time) :
  match sched m with
  | SchedAfter _ _ finish => finish = false
  | SchedExit => False
  | _ => True
  end ->
  barrier m ->
  exists pre m1 l1,
    (length pre <= 2)%nat /\ Forall not_a_write pre /\
    runw pre m = Some m1 /\
    sched m1 = SchedSelect l1 /\ done m1 = 1 /\
    spans m1 = spans m /\ calls m1 = calls m /\ closer m1 = closer m.
Proof.
  unfold barrier. intros Hs Hb.
  destruct (sched m) as [|l|l|l flush finish|] eqn:Es.
  - exists [ActStart now; ActAdd]. unfold run, step, backgroundWriter_start.
    rewrite Es. simpl. eexists _, _. split; [lia|].
    split; [repeat constructor|]. split; [reflexivity|].
    simpl. rewrite Hb. repeat split.
  - exists [ActAdd]. unfold run, step. rewrite Es. simpl.
    eexists _, _. split; [lia|].
    split; [repeat constructor|]. split; [reflexivity|].
    simpl. rewrite Hb. repeat split.
  - exists [], m, l. simpl. split; [lia|]. split; [constructor|].
    repeat split; assumption.
  - subst finish. exists [ActAfter now; ActAdd].
    unfold run, step. rewrite Es. unfold backgroundWriter_after.
    destruct flush; simpl; eexists _, _; (split; [lia|]);
      (split; [repeat constructor|]);
      (split; [reflexivity|]); simpl; rewrite Hb; repeat split.
  - contradiction.
Qed.

(** X12. [Close] cannot get stuck in the writer's own synchronisation:
    from any reachable state in which [Close] is at its send, at most
    four steps of the scheduler goroutine (the calls to the pool taken to
    return) end the loop, after which the wait is over and [Close]
    returns [nil]. *)
Theorem Close_can_complete acts g (m : Machine) (now : Time) :
  runw acts (boot g) = Some m ->
  closer m = CloseSending ->
  exists acts' m',
    (length acts' <= 5)%nat /\
    runw acts' m = Some m' /\ closer m' = CloseDone nil_error /\
    sched m' = SchedExit.
Proof.
  intros Hrun Hc.
  assert (Hinv : shutdown_inv m).
  { apply (run_invariant shutdown_inv step_shutdown_inv acts (boot g) m);
      [apply boot_shutdown_inv | exact Hrun]. }
  destruct Hinv as [Hb Hs]. rewrite Hc in Hs. destruct Hs as [_ Hs].
  destruct (reach_select m now Hs Hb)
    as (pre & m1 & l1 & Hlen & _ & Hpre & Hs1 & Hd1 & _ & _ & Hc1).
  exists (pre ++ [ActFinish; ActAfter now; ActWait]).
  rewrite run_app, Hpre. simpl.
  unfold step, selected. rewrite Hs1, Hc1, Hc. simpl.
  unfold backgroundWriter_after. rewrite Hd1. simpl.
  destruct (0 <? len (batch l1)); simpl; eexists;
    (split; [rewrite length_app; simpl; lia|]);
    (split; [reflexivity|]); split; reflexivity.
Qed.

Lemma only_pending_released (cs : list (Call Span)) i e :
  (forall j y e', cs !! j = Some (AtSend y e') -> j = i) ->
  forall j y e', <[i := Returned e]> cs !! j <> Some (AtSend y e').
Proof.
  intros Honly j y e' Hj. destruct (decide (j = i)) as [->|Hne].
  - destruct (decide (i < length cs)%nat) as [Hlt|Hge].
    + rewrite list_lookup_insert_eq in Hj by exact Hlt. discriminate.
    + rewrite list_insert_ge in Hj by lia.
      rewrite lookup_ge_None_2 in Hj by lia. discriminate.
  - rewrite list_lookup_insert_ne in Hj by congruence.
    apply Honly in Hj. contradiction.
Qed.

(** X13. Backpressure is released by the scheduler: while [Close] has not
    been called, a producer that is the only one at its send gets through
    after at most four more steps, none of them another producer's (the
    calls to the pool taken to return); if the queue is full the
    scheduler's next receive makes the room, or, with an unbuffered
    queue, takes the span itself. *)
Theorem blocked_send_is_released acts g (m : Machine) i x e (now : Time) :
  0 <= size w ->
  runw acts (boot g) = Some m ->
  closer m = CloseIdle ->
  calls m !! i = Some (AtSend x e) ->
  (forall j y e', calls m !! j = Some (AtSend y e') -> j = i) ->
  exists acts' m',
    (length acts' <= 4)%nat /\
    Forall not_a_write acts' /\
    runw acts' m = Some m' /\ calls m' !! i = Some (Returned e) /\
    (forall j y e', calls m' !! j <> Some (AtSend y e')).
Proof.
  intros Hsz Hrun Hc Hi Honly.
  assert (Hinv : shutdown_inv m).
  { apply (run_invariant shutdown_inv step_shutdown_inv acts (boot g) m);
      [apply boot_shutdown_inv | exact Hrun]. }
  assert (Hq : Z.of_nat (length (spans m)) <= size w).
  { apply (run_invariant (fun m => Z.of_nat (length (spans m)) <= size w)
             step_queue_bounded acts (boot g) m); [simpl; lia | exact Hrun]. }
  assert (Hlt : (i < length (calls m))%nat)
    by (eapply lookup_lt_Some; exact Hi).
  destruct (Z.ltb_spec (Z.of_nat (length (spans m))) (size w)) as [Hroom|Hfull].
  - exists [ActSend i]. simpl. rewrite Hi.
    destruct (Z.ltb_spec (Z.of_nat (length (spans m))) (size w)); [|lia].
    eexists. split; [lia|]. split; [repeat constructor|].
    split; [reflexivity|]. simpl.
      split; [apply list_lookup_insert_eq; exact Hlt
             | apply only_pending_released; exact Honly].
  - destruct Hinv as [Hb Hs]. rewrite Hc in Hs. destruct Hs as [_ Hs].
    destruct (reach_select m now Hs Hb)
      as (pre & m1 & l1 & Hlen & Hnw & Hpre & Hs1 & _ & Hq1 & Hc1 & _).
    destruct (spans m) as [|x0 buf] eqn:Eq.
    + assert (Hz : size w <= 0) by (simpl in Hfull; lia).
      exists (pre ++ [ActRecvFrom i]). rewrite run_app, Hpre. simpl.
      rewrite Hs1, Hq1, Hc1, Hi.
      destruct (Z.leb_spec (size w) 0); [|lia].
      eexists. split; [rewrite length_app; simpl; lia|].
      split; [apply Forall_app; split; [exact Hnw | repeat constructor]|].
      split; [reflexivity|]. simpl.
      split; [apply list_lookup_insert_eq; exact Hlt
             | apply only_pending_released; exact Honly].
    + exists (pre ++ [ActRecv; ActSend i]). rewrite run_app, Hpre. simpl.
      rewrite Hs1, Hq1. simpl. rewrite Hc1, Hi.
      assert (Hbuf : Z.of_nat (length buf) < size w)
        by (simpl in Hq; lia).
      destruct (Z.ltb_spec (Z.of_nat (length buf)) (size w)); [|lia].
      simpl. eexists. split; [rewrite length_app; simpl; lia|].
      split; [apply Forall_app; split; [exact Hnw | repeat constructor]|].
      split; [reflexivity|]. simpl.
      split; [apply list_lookup_insert_eq; exact Hlt
             | apply only_pending_released; exact Honly].
Qed.

Lemma step_stuck a (m m' : Machine) i x e :
  sched m = SchedExit -> size w <= Z.of_nat (length (spans m)) ->
  calls m !! i = Some (AtSend x e) ->
  stepw a m = Some m' ->
  sched m' = SchedExit /\ size w <= Z.of_nat (length (spans m')) /\
  calls m' !! i = Some (AtSend x e).
Proof.
  intros Hex Hfull Hi H.
  destruct a; step_inv H; simpl; try congruence; try lia;
    repeat split; try assumption; try congruence.
  rewrite lookup_app_l; [exact Hi | eapply lookup_lt_Some; exact Hi].
Qed.


(** X15. After the loop has ended nobody receives from the queue any
    more: a producer that is at its send while the queue is full stays
    there whatever happens next; its [WriteSpan] never returns. *)
Theorem send_after_exit_blocks_forever acts (m m' : Machine) i x e :
  sched m = SchedExit ->
  size w <= Z.of_nat (length (spans m)) ->
  calls m !! i = Some (AtSend x e) ->
  runw acts m = Some m' ->
  calls m' !! i = Some (AtSend x e) /\ sched m' = SchedExit.
Proof.
  revert m. induction acts as [|a acts IH]; intros m Hex Hfull Hi Hrun.
  - simpl in Hrun. injection Hrun as <-. split; assumption.
  - simpl in Hrun. destruct (stepw a m) as [m1|] eqn:E; [|discriminate].
    simpl in Hrun.
    destruct (step_stuck a m m1 i x e Hex Hfull Hi E) as (H1 & H2 & H3).
    exact (IH m1 H1 H2 H3 Hrun).
Qed.

End Properties.

(** * The process-wide registration *)

Lemma metric_names_differ :
  name_numWritesWithFlushInterval <> name_numWritesWithBatchSize.
Proof. discriminate. Qed.

Lemma registerMetrics_first p :
  registerWriterMetrics p = false ->
  name_numWritesWithBatchSize ∉ registry p ->
  name_numWritesWithFlushInterval ∉ registry p ->
  registerMetrics p
  = Some {| registerWriterMetrics := true;
            registry := {[ name_numWritesWithFlushInterval ]}
                          ∪ ({[ name_numWritesWithBatchSize ]} ∪ registry p);
            registrations := registrations p
                               ++ [name_numWritesWithBatchSize;
                                   name_numWritesWithFlushInterval] |}.
Proof.
  intros Hgate H1 H2. unfold registerMetrics, MustRegister. rewrite Hgate.
  simpl. destruct (decide _) as [|_]; [contradiction|]. simpl.
  destruct (decide _) as [Hin|_].
  - apply elem_of_union in Hin as [Hin|Hin]; [|contradiction].
    apply elem_of_singleton in Hin. destruct (metric_names_differ Hin).
  - rewrite <- app_assoc. reflexivity.
Qed.

Lemma makechan_panics_iff sz :
  is_int64 sz ->
  makechan_panics sz = true <-> sz < 0 \/ max_chan_capacity < sz.
Proof.
  unfold is_int64, makechan_panics, MulUintptr, uintptr, sizeof_SpanAndTenant.
  change max_chan_capacity with 11728124029606.
  change (maxAlloc - hchanSize) with 281474976710560.
  change (2 ^ 64) with 18446744073709551616.
  change (2 ^ 63) with 9223372036854775808.
  intros Hint. destruct (Z.ltb_spec sz 0) as [Hneg|Hpos].
  - rewrite orb_true_r. split; [left; exact Hneg | reflexivity].
  - rewrite orb_false_r. rewrite (Z.mod_small sz) by lia.
    destruct (Z.leb_spec 18446744073709551616 (24 * sz)) as [Hov|Hno]; simpl.
    + split; [right; lia | reflexivity].
    + rewrite (Z.mod_small (24 * sz)) by lia.
      destruct (Z.ltb_spec 281474976710560 (24 * sz)); split;
        intros; try discriminate; try reflexivity; try (right; lia); lia.
Qed.

Lemma makechan_accepts sz :
  0 <= sz <= max_chan_capacity -> makechan_panics sz = false.
Proof.
  intros H. destruct (makechan_panics sz) eqn:E; [|reflexivity].
  apply makechan_panics_iff in E; [lia|].
  unfold is_int64. change max_chan_capacity with 11728124029606 in H.
  change (2 ^ 63) with 9223372036854775808. lia.
Qed.

Lemma construct_after_first cs p :
  registerWriterMetrics p = true ->
  Forall (fun c => 0 <= cfg_size c <= max_chan_capacity) cs ->
  exists ws, construct cs p = Some (ws, p) /\ length ws = length cs.
Proof.
  intros Hgate Hcs. induction Hcs as [|c cs Hc _ IH]; simpl.
  - exists []. split; reflexivity.
  - unfold NewSpanWriter, registerMetrics. rewrite Hgate.
    rewrite (makechan_accepts _ Hc). simpl.
    destruct IH as (ws & -> & Hlen). eexists. split; [reflexivity|].
    simpl. rewrite Hlen. reflexivity.
Qed.

(** C9. In a process whose registry does not hold the two counters'
    names yet, building any number of writers (at least one), each with a
    size [make] accepts for the channel, never panics, and [MustRegister]
    runs exactly once for each counter, in the first construction; later
    constructions find the gate closed and register nothing. *)
Theorem metrics_registered_once c cs p0 :
  registerWriterMetrics p0 = false ->
  name_numWritesWithBatchSize ∉ registry p0 ->
  name_numWritesWithFlushInterval ∉ registry p0 ->
  Forall (fun c => 0 <= cfg_size c <= max_chan_capacity) (c :: cs) ->
  exists ws p,
    construct (c :: cs) p0 = Some (ws, p) /\
    length ws = S (length cs) /\
    registerWriterMetrics p = true /\
    registrations p = registrations p0
                        ++ [name_numWritesWithBatchSize;
                            name_numWritesWithFlushInterval] /\
    registry p = {[ name_numWritesWithFlushInterval ]}
                   ∪ ({[ name_numWritesWithBatchSize ]} ∪ registry p0).
Proof.
  intros Hgate H1 H2 Hcs. apply Forall_cons in Hcs as [Hc Hcs].
  simpl. unfold NewSpanWriter.
  rewrite (makechan_accepts _ Hc).
  rewrite (registerMetrics_first p0 Hgate H1 H2). simpl.
  match goal with
  | |- context [construct cs ?p] =>
      destruct (construct_after_first cs p eq_refl Hcs) as (ws & -> & Hlen)
  end.
  eexists _, _. split; [reflexivity|]. simpl. rewrite Hlen.
  repeat split; reflexivity.
Qed.

(** X14. When building a writer panics, for a size of type [int64]: when
    [make] refuses the channel (a negative size, or one above the largest
    capacity the runtime accepts), or when this is the first construction
    in the process and the registry already holds one of the two
    counters' names.  In no other case. *)
Theorem NewSpanWriter_panics_iff idx spans_tbl tenant enc d sz msc p :
  is_int64 sz ->
  NewSpanWriter idx spans_tbl tenant enc d sz msc p = None <->
  sz < 0 \/ max_chan_capacity < sz \/
  (registerWriterMetrics p = false /\
   (name_numWritesWithBatchSize ∈ registry p \/
    name_numWritesWithFlushInterval ∈ registry p)).
Proof.
  intros Hint. pose proof (makechan_panics_iff sz Hint) as Hmk.
  unfold NewSpanWriter, registerMetrics, MustRegister.
  destruct (makechan_panics sz) eqn:Epanic.
  - split; [intros _|reflexivity].
    destruct (proj1 Hmk eq_refl) as [?|?]; [left | right; left]; assumption.
  - assert (Hok : ~ (sz < 0 \/ max_chan_capacity < sz))
      by (intros H; apply Hmk in H; discriminate).
    destruct (registerWriterMetrics p) eqn:Hgate; simpl.
    + split; [discriminate|].
      intros [?|[?|[? _]]]; [destruct Hok; left; assumption
                            | destruct Hok; right; assumption
                            | discriminate].
    + destruct (decide (name_numWritesWithBatchSize ∈ registry p))
        as [H1|H1]; simpl.
      * split; [intros _; right; right; split; [reflexivity | left; exact H1]
               | reflexivity].
      * destruct (decide (name_numWritesWithFlushInterval
                            ∈ {[name_numWritesWithBatchSize]} ∪ registry p))
          as [H2|H2]; simpl.
        -- split; [|reflexivity]. intros _. right. right.
           split; [reflexivity|].
           right. apply elem_of_union in H2 as [H2|H2]; [|exact H2].
           apply elem_of_singleton in H2. destruct (metric_names_differ H2).
        -- split; [discriminate|].
           intros [?|[?|[_ [?|Hin]]]];
             [destruct Hok; left; assumption
             | destruct Hok; right; assumption
             | contradiction |].
           destruct H2. apply elem_of_union. right. exact Hin.
Qed.

(** * The properties at concrete executions *)

Lemma received_then_closed_runs :
  run grow_exact w3 7 received_then_closed (boot g0)
  = Some (machine_after received_then_closed).
Proof. vm_compute. reflexivity. Qed.

(** Through the machine: three [WriteSpan] calls fill the queue, the
    scheduler takes the spans in order and flushes once, by size. *)
Lemma three_submissions_one_size_flush :
  run grow_exact w3 7 three_submissions (boot g0)
    = Some (machine_after three_submissions) /\
  flushed (trace (machine_after three_submissions)) = [[A1; B1; C1]] /\
  metrics (machine_after three_submissions) = mkMetrics 1 0 /\
  spans (machine_after three_submissions) = [].
Proof.
  split; [vm_compute; reflexivity|].
  split; [vm_compute; reflexivity|].
  split; vm_compute; reflexivity.
Qed.

Lemma flushed_batches_bounded_witness :
  1 <= size w3 /\
  run grow_exact w3 7 received_then_closed (boot g0)
    = Some (machine_after received_then_closed) /\
  PoolWriteBatch [A1] ∈ trace (machine_after received_then_closed) /\
  1 <= Z.of_nat (length [A1]) <= size w3.
Proof.
  assert (H1 : 1 <= size w3) by (simpl; lia).
  assert (H2 : run grow_exact w3 7 received_then_closed (boot g0)
               = Some (machine_after received_then_closed)) by (vm_compute; reflexivity).
  assert (H3 : PoolWriteBatch [A1] ∈ trace (machine_after received_then_closed)).
  { apply list_elem_of_In. vm_compute. tauto. }
  split; [exact H1 | split; [exact H2 | split; [exact H3|]]].
  apply (flushed_batches_bounded grow_exact w3 7 received_then_closed g0
           (machine_after received_then_closed) H1 H2 [A1] H3).
Defined.

(** C2, as stated, fails: [WriteSpan] has returned for A, [Close] is
    called and returns, and no batch was ever handed to the pool; A is
    still in the queue.  The trace also shows the order of the shutdown:
    the pool's [Close] comes before the barrier's release, and nothing
    comes between the release and the return of [Close]. *)
Lemma Close_after_WriteSpan_can_flush_nothing :
  run grow_exact w3 7 closed_before_received (boot g0)
  = Some {| spans := [A1];
            calls := [Returned nil_error];
            closer := CloseDone nil_error;
            done := 0;
            sched := SchedExit;
            metrics := g0;
            trace := [NewWorkerPool (workerParams w3) 7; PoolWork;
                      TimeAfter 1000; DoneAdd; LogDebug "Finish channel";
                      PoolClose; DoneDone; CloseReturn nil_error] |} /\
  flushed (trace (machine_after closed_before_received)) = [] /\
  flushed (trace (machine_after closed_before_received)) <> [[A1]].
Proof. split; [reflexivity | split; [reflexivity | discriminate]]. Qed.

Lemma Close_returns_after_shutdown_iteration_witness :
  (run grow_exact w3 7 received_then_closed (boot g0)
     = Some (machine_after received_then_closed) /\
   closer (machine_after received_then_closed) = CloseDone nil_error /\
   sched (machine_after received_then_closed) = SchedExit /\
   exists t fl,
     (PoolClose ∉ t) /\ shutdown_flush fl /\
     trace (machine_after received_then_closed)
     = t ++ [finish_log] ++ fl ++ [PoolClose; DoneDone; CloseReturn nil_error]) /\
  (sched (machine_after received_then_closing)
     = SchedSelect (mkLoop (mkSlice [A1] 3) 1000 5) /\
   closer (machine_after received_then_closing) = CloseSending /\
   done (machine_after received_then_closing) = 1 /\
   exists m',
     run grow_exact w3 7 [ActFinish; ActAfter 9; ActWait]
       (machine_after received_then_closing) = Some m' /\
     closer m' = CloseDone nil_error /\
     metrics m' = metrics (machine_after received_then_closing) /\
     trace m' = trace (machine_after received_then_closing)
                  ++ [finish_log; PoolWriteBatch [A1]; PoolClose; DoneDone;
                      CloseReturn nil_error]).
Proof.
  destruct (Close_returns_after_shutdown_iteration (Span:=string)
              grow_exact w3 7) as (Hrun & _ & Hone).
  split.
  - assert (H1 : run grow_exact w3 7 received_then_closed (boot g0)
                 = Some (machine_after received_then_closed)) by (vm_compute; reflexivity).
    assert (H2 : closer (machine_after received_then_closed)
                 = CloseDone nil_error) by reflexivity.
    destruct (Hrun _ _ _ _ H1 H2) as (_ & Hs & _ & Htr).
    split; [exact H1 | split; [exact H2 | split; [exact Hs | exact Htr]]].
  - assert (H1 : sched (machine_after received_then_closing)
                 = SchedSelect (mkLoop (mkSlice [A1] 3) 1000 5)) by reflexivity.
    assert (H2 : closer (machine_after received_then_closing) = CloseSending)
      by reflexivity.
    assert (H3 : done (machine_after received_then_closing) = 1) by reflexivity.
    split; [exact H1 | split; [exact H2 | split; [exact H3|]]].
    exact (Hone _ _ A1 9 H1 eq_refl H2 H3).
Defined.

Lemma size_flush_witness :
  size w3 = 3 /\
  len (batch loop_AB) + 1 = cap (batch loop_AB) /\
  (exists e,
     backgroundWriter_loop grow_exact w3
       [(CaseSpan A1, 1); (CaseSpan B1, 2); (CaseSpan C1, 3)]
       (mkLoop (make (size w3)) 1000 0) g0
     = (Some (mkLoop (make (size w3)) 1000 3), mkMetrics 1 0, e) /\
     flushed e = [[A1; B1; C1]]) /\
  backgroundWriter_iteration grow_exact w3 (CaseSpan C1) 3 loop_AB g0
  = (Some (mkLoop (make (size w3)) 1000 3), mkMetrics 1 0,
     [DoneAdd; LogDebug "Flush due to batch size";
      PoolWriteBatch [A1; B1; C1]; DoneDone]).
Proof.
  destruct (size_flush grow_exact w3 A1 B1 C1 1 2 3 1000 0 g0) as [H3 Hgen].
  split; [reflexivity | split; [reflexivity | split]].
  - exact (H3 eq_refl).
  - exact (Hgen loop_AB C1 3 eq_refl).
Defined.

Lemma only_ticks_has_no_write ctx (sp : string) :
  ActWriteSpan ctx sp ∉ only_ticks.
Proof.
  unfold only_ticks. rewrite !not_elem_of_cons.
  repeat split; try discriminate. apply not_elem_of_nil.
Qed.

Lemma timer_tick_witness :
  mono (last loop_A) /\ mono 2000 /\
  run grow_exact w3 7 only_ticks (boot g0) = Some (machine_after only_ticks) /\
  sel_flush (backgroundWriter_select grow_exact w3 (CaseTimer 2000) loop_A g0)
    = true /\
  backgroundWriter_iteration grow_exact w3 (CaseTimer 2000) 2001 loop_A g0
  = (Some (mkLoop (make 3) 1000 2001), mkMetrics 0 1,
     [DoneAdd; TimeAfter 1000; LogDebug "Flush due to timer";
      PoolWriteBatch [A1]; DoneDone]) /\
  flushed (trace (machine_after only_ticks)) = [].
Proof.
  assert (H1 : mono (last loop_A)) by (unfold mono; simpl; lia).
  assert (H2 : mono 2000) by (unfold mono; lia).
  assert (H3 : run grow_exact w3 7 only_ticks (boot g0)
               = Some (machine_after only_ticks)) by (vm_compute; reflexivity).
  destruct (timer_tick grow_exact w3 7 loop_A g0 2000 2001 H1 H2)
    as (_ & _ & Hiff & Hit & _ & Hidle).
  assert (Hf : sel_flush (backgroundWriter_select grow_exact w3
                            (CaseTimer 2000) loop_A g0) = true).
  { apply Hiff. simpl. unfold len. simpl. lia. }
  rewrite Hf in Hit.
  split; [exact H1 | split; [exact H2 | split; [exact H3 | split;
    [exact Hf | split; [exact Hit|]]]]].
  exact (Hidle only_ticks g0 _ H3 only_ticks_has_no_write).
Defined.

Lemma shutdown_signal_witness :
  sched (machine_after received_then_closed) = SchedExit /\
  backgroundWriter_iteration grow_exact w3 CaseFinish 9 loop_A g0
  = (None, g0,
     [DoneAdd; LogDebug "Finish channel"; PoolWriteBatch [A1]; PoolClose;
      DoneDone]) /\
  (forall m',
     step grow_exact w3 7 (ActWriteSpan (ctx_tenant "t1") "B")
       (machine_after received_then_closed) = Some m' ->
     sched m' = SchedExit /\
     metrics m' = metrics (machine_after received_then_closed) /\
     flushed (trace m') = flushed (trace (machine_after received_then_closed))).
Proof.
  destruct (shutdown_signal grow_exact w3 7 loop_A g0 9 [])
    as (_ & _ & _ & Hit & _ & Hexit).
  split; [reflexivity | split; [exact Hit|]].
  intros m' Hstep.
  exact (Hexit (machine_after received_then_closed) m' _ eq_refl Hstep).
Defined.

Lemma dropped_and_kept_only_without_metadata ctx' :
  ActWriteSpan ctx' "A" ∈ dropped_and_kept -> incoming ctx' = None.
Proof.
  unfold dropped_and_kept. rewrite !elem_of_cons, elem_of_nil.
  intros H. repeat (destruct H as [H|H]; try discriminate H);
    [|contradiction].
  injection H as ->. reflexivity.
Qed.

Lemma WriteSpan_without_metadata_drops_witness :
  incoming ctx_no_metadata = None /\
  run grow_exact w3 7 dropped_and_kept (boot g0)
    = Some (machine_after dropped_and_kept) /\
  PoolWriteBatch [B1] ∈ trace (machine_after dropped_and_kept) /\
  WriteSpan w3 ctx_no_metadata "A" = Returned nil_error /\
  span B1 <> "A".
Proof.
  destruct (WriteSpan_without_metadata_drops grow_exact w3 7 ctx_no_metadata
              "A" eq_refl) as (Hw & _ & Hnever).
  assert (H2 : run grow_exact w3 7 dropped_and_kept (boot g0)
               = Some (machine_after dropped_and_kept)) by (vm_compute; reflexivity).
  assert (H3 : PoolWriteBatch [B1] ∈ trace (machine_after dropped_and_kept)).
  { apply list_elem_of_In. vm_compute. tauto. }
  split; [reflexivity | split; [exact H2 | split; [exact H3 | split;
    [exact Hw|]]]].
  apply (Hnever dropped_and_kept g0 _ H2 dropped_and_kept_only_without_metadata
           [B1] B1 H3).
  apply list_elem_of_In. left. reflexivity.
Defined.

Lemma flushed_tenant_is_submitted_tenant_witness :
  run grow_exact w3 7 received_then_closed (boot g0)
    = Some (machine_after received_then_closed) /\
  PoolWriteBatch [A1] ∈ trace (machine_after received_then_closed) /\
  A1 ∈ [A1] /\
  exists ctx md,
    ActWriteSpan ctx (span A1) ∈ received_then_closed /\
    incoming ctx = Some md /\
    WriteSpan w3 ctx (span A1) = AtSend A1 nil_error /\
    tenant A1 = match md_Get md "x-tenant" with
                | [] => ""
                | t0 :: _ => t0
                end.
Proof.
  assert (H1 : run grow_exact w3 7 received_then_closed (boot g0)
               = Some (machine_after received_then_closed)) by (vm_compute; reflexivity).
  assert (H2 : PoolWriteBatch [A1] ∈ trace (machine_after received_then_closed)).
  { apply list_elem_of_In. vm_compute. tauto. }
  assert (H3 : A1 ∈ [A1]) by (apply list_elem_of_In; left; reflexivity).
  split; [exact H1 | split; [exact H2 | split; [exact H3|]]].
  exact (flushed_tenant_is_submitted_tenant grow_exact w3 7
           received_then_closed g0 _ [A1] A1 H1 H2 H3).
Defined.




Lemma metrics_registered_once_witness :
  registerWriterMetrics process_start = false /\
  (name_numWritesWithBatchSize ∉ registry process_start) /\
  (name_numWritesWithFlushInterval ∉ registry process_start) /\
  Forall (fun c => 0 <= cfg_size c <= max_chan_capacity)
    [config3; config3; config3] /\
  exists ws p,
    construct [config3; config3; config3] process_start = Some (ws, p) /\
    length ws = 3%nat /\
    registerWriterMetrics p = true /\
    registrations p = [name_numWritesWithBatchSize;
                       name_numWritesWithFlushInterval] /\
    registry p = {[ name_numWritesWithFlushInterval ]}
                   ∪ ({[ name_numWritesWithBatchSize ]} ∪ ∅).
Proof.
  assert (H2 : name_numWritesWithBatchSize ∉ registry process_start)
    by apply not_elem_of_empty.
  assert (H3 : name_numWritesWithFlushInterval ∉ registry process_start)
    by apply not_elem_of_empty.
  assert (H4 : Forall (fun c => 0 <= cfg_size c <= max_chan_capacity)
                 [config3; config3; config3])
    by (repeat constructor; vm_compute; discriminate).
  split; [reflexivity | split; [exact H2 | split; [exact H3 | split;
    [exact H4|]]]].
  exact (metrics_registered_once config3 [config3; config3] process_start
           eq_refl H2 H3 H4).
Defined.

(** * More properties at concrete executions *)

Lemma queue_to_pool_in_order_witness :
  run grow_exact w3 7 (three_submissions ++ [ActWriteSpan (ctx_tenant "t1") "D";
                                            ActSend 3%nat]) (boot g0)
    = Some (machine_after (three_submissions
                             ++ [ActWriteSpan (ctx_tenant "t1") "D";
                                 ActSend 3%nat])) /\
  concat (flushed (trace (machine_after
            (three_submissions ++ [ActWriteSpan (ctx_tenant "t1") "D";
                                   ActSend 3%nat]))))
    ++ batch_of (sched (machine_after
            (three_submissions ++ [ActWriteSpan (ctx_tenant "t1") "D";
                                   ActSend 3%nat])))
    ++ spans (machine_after
            (three_submissions ++ [ActWriteSpan (ctx_tenant "t1") "D";
                                   ActSend 3%nat]))
  = delivered grow_exact w3 7
      (three_submissions ++ [ActWriteSpan (ctx_tenant "t1") "D"; ActSend 3%nat])
      (boot g0).
Proof.
  assert (H1 : run grow_exact w3 7
                 (three_submissions ++ [ActWriteSpan (ctx_tenant "t1") "D";
                                        ActSend 3%nat]) (boot g0)
               = Some (machine_after
                         (three_submissions
                            ++ [ActWriteSpan (ctx_tenant "t1") "D";
                                ActSend 3%nat])))
    by (vm_compute; reflexivity).
  split; [exact H1|].
  exact (queue_to_pool_in_order grow_exact w3 7 _ g0 _ H1).
Defined.

Lemma barrier_counter_witness :
  run grow_exact w3 7 received_then_closing (boot g0)
    = Some (machine_after received_then_closing) /\
  0 <= done (machine_after received_then_closing) <= 1 /\
  (done (machine_after received_then_closing) = 1 <->
   match sched (machine_after received_then_closing) with
   | SchedSelect _ | SchedAfter _ _ _ => True
   | _ => False
   end).
Proof.
  assert (H1 : run grow_exact w3 7 received_then_closing (boot g0)
               = Some (machine_after received_then_closing))
    by (vm_compute; reflexivity).
  split; [exact H1|].
  exact (barrier_counter grow_exact w3 7 received_then_closing g0 _ H1).
Defined.

Lemma pool_created_once_closed_last_witness :
  run grow_exact w3 7 received_then_closed (boot g0)
    = Some (machine_after received_then_closed) /\
  match sched (machine_after received_then_closed) with
  | SchedInit => trace (machine_after received_then_closed) = []
  | SchedTop _ | SchedSelect _ | SchedAfter _ _ _ =>
      exists body,
        trace (machine_after received_then_closed)
        = start_effects w3 7 ++ body /\ Forall in_loop body
  | SchedExit =>
      exists body,
        trace (machine_after received_then_closed)
        = start_effects w3 7 ++ body ++ [PoolClose; DoneDone]
            ++ match closer (machine_after received_then_closed) with
               | CloseDone e => [CloseReturn e]
               | _ => []
               end /\
        Forall in_loop body
  end.
Proof.
  assert (H1 : run grow_exact w3 7 received_then_closed (boot g0)
               = Some (machine_after received_then_closed))
    by (vm_compute; reflexivity).
  split; [exact H1|].
  exact (pool_created_once_closed_last grow_exact w3 7 received_then_closed
           g0 _ H1).
Defined.

Lemma counters_account_for_flushes_witness :
  run grow_exact w3 7 three_submissions (boot g0)
    = Some (machine_after three_submissions) /\
  numWritesWithBatchSize g0
    <= numWritesWithBatchSize (metrics (machine_after three_submissions)) /\
  numWritesWithFlushInterval g0
    <= numWritesWithFlushInterval (metrics (machine_after three_submissions)) /\
  match sched (machine_after three_submissions) with
  | SchedInit | SchedTop _ | SchedSelect _ =>
      counted g0 (machine_after three_submissions)
      = Z.of_nat (length (flushed (trace (machine_after three_submissions))))
  | SchedAfter _ flush finish =>
      counted g0 (machine_after three_submissions)
      = Z.of_nat (length (flushed (trace (machine_after three_submissions))))
        + (if flush && negb finish then 1 else 0)
  | SchedExit =>
      Z.of_nat (length (flushed (trace (machine_after three_submissions)))) - 1
      <= counted g0 (machine_after three_submissions)
      <= Z.of_nat (length (flushed (trace (machine_after three_submissions))))
  end.
Proof.
  assert (H1 : run grow_exact w3 7 three_submissions (boot g0)
               = Some (machine_after three_submissions))
    by (vm_compute; reflexivity).
  split; [exact H1|].
  exact (counters_account_for_flushes grow_exact w3 7 three_submissions
           g0 _ H1).
Defined.

Lemma span_arrival_flushes_iff_full_witness :
  len (batch loop_A) < cap (batch loop_A) /\
  len (batch loop_A) + 1 < cap (batch loop_A) /\
  (sel_flush (backgroundWriter_select grow_exact w3 (CaseSpan B1) loop_A g0)
     = true <-> len (batch loop_A) + 1 = cap (batch loop_A)) /\
  backgroundWriter_iteration grow_exact w3 (CaseSpan B1) 7 loop_A g0
  = (Some (mkLoop (mkSlice [A1; B1] 3) 1000 0), g0, [DoneAdd; DoneDone]).
Proof.
  assert (H1 : len (batch loop_A) < cap (batch loop_A))
    by (vm_compute; reflexivity).
  assert (H2 : len (batch loop_A) + 1 < cap (batch loop_A))
    by (vm_compute; reflexivity).
  destruct (span_arrival_flushes_iff_full grow_exact w3 loop_A B1 g0 7 H1)
    as [Hiff Hroom].
  split; [exact H1 | split; [exact H2 | split; [exact Hiff|]]].
  exact (Hroom H2).
Defined.

Lemma WriteSpan_reads_first_tenant_only_witness :
  incoming (mkCtx (Some md_two_tenants)) = Some md_two_tenants /\
  md_two_tenants !! "x-tenant" = Some ["t1"; "t2"] /\
  head (md_Get md_two_tenants "x-tenant")
    = head (md_Get md_tenant_and_more "x-tenant") /\
  WriteSpan w3 (mkCtx (Some md_two_tenants)) "A" = AtSend A1 nil_error /\
  WriteSpan w3 (mkCtx (Some md_two_tenants)) "A"
    = WriteSpan w0 (mkCtx (Some md_tenant_and_more)) "A".
Proof.
  assert (H2 : md_two_tenants !! "x-tenant" = Some ["t1"; "t2"])
    by (vm_compute; reflexivity).
  assert (H3 : head (md_Get md_two_tenants "x-tenant")
               = head (md_Get md_tenant_and_more "x-tenant"))
    by (vm_compute; reflexivity).
  destruct (WriteSpan_reads_first_tenant_only w3
              (mkCtx (Some md_two_tenants)) md_two_tenants "A" "t1" ["t2"]
              eq_refl H2) as [Hw Hsame].
  split; [reflexivity | split; [exact H2 | split; [exact H3 | split;
    [exact Hw|]]]].
  exact (Hsame md_two_tenants md_tenant_and_more w3 w0 H3).
Defined.

Lemma queue_bounded_witness :
  0 <= size w3 /\
  run grow_exact w3 7 queue_full (boot g0) = Some (machine_after queue_full) /\
  calls (machine_after queue_full) !! 3%nat = Some (AtSend D1 nil_error) /\
  Z.of_nat (length (spans (machine_after queue_full))) = size w3 /\
  Z.of_nat (length (spans (machine_after queue_full))) <= size w3 /\
  step grow_exact w3 7 (ActSend 3%nat) (machine_after queue_full) = None.
Proof.
  assert (H1 : 0 <= size w3) by (simpl; lia).
  assert (H2 : run grow_exact w3 7 queue_full (boot g0)
               = Some (machine_after queue_full)) by (vm_compute; reflexivity).
  assert (H3 : calls (machine_after queue_full) !! 3%nat
               = Some (AtSend D1 nil_error)) by (vm_compute; reflexivity).
  assert (H4 : Z.of_nat (length (spans (machine_after queue_full))) = size w3)
    by (vm_compute; reflexivity).
  destruct (queue_bounded grow_exact w3 7 queue_full g0 _ H1 H2)
    as [Hle Hblocked].
  split; [exact H1 | split; [exact H2 | split; [exact H3 | split;
    [exact H4 | split; [exact Hle|]]]]].
  exact (proj2 (Hblocked 3%nat D1 nil_error H3) H4).
Defined.

Lemma after_exit_nothing_is_flushed_witness :
  sched (machine_after received_then_closed) = SchedExit /\
  run grow_exact w3 7 [ActWriteSpan (ctx_tenant "t1") "B"; ActSend 1%nat]
    (machine_after received_then_closed)
  = Some (machine_after (received_then_closed
                           ++ [ActWriteSpan (ctx_tenant "t1") "B";
                               ActSend 1%nat])) /\
  spans (machine_after (received_then_closed
                          ++ [ActWriteSpan (ctx_tenant "t1") "B";
                              ActSend 1%nat])) = [B1] /\
  flushed (trace (machine_after (received_then_closed
                                   ++ [ActWriteSpan (ctx_tenant "t1") "B";
                                       ActSend 1%nat])))
  = flushed (trace (machine_after received_then_closed)).
Proof.
  assert (H1 : sched (machine_after received_then_closed) = SchedExit)
    by (vm_compute; reflexivity).
  assert (H2 : run grow_exact w3 7
                 [ActWriteSpan (ctx_tenant "t1") "B"; ActSend 1%nat]
                 (machine_after received_then_closed)
               = Some (machine_after (received_then_closed
                                        ++ [ActWriteSpan (ctx_tenant "t1") "B";
                                            ActSend 1%nat])))
    by (vm_compute; reflexivity).
  destruct (after_exit_nothing_is_flushed grow_exact w3 7 _ _ _ H1 H2)
    as (_ & Hf & _ & _).
  split; [exact H1 | split; [exact H2 | split; [|exact Hf]]].
  vm_compute. reflexivity.
Defined.

Lemma arrivals_are_cut_into_full_batches_witness :
  1 <= size w3 /\ cap (batch top_loop) = size w3 /\
  len (batch top_loop) < size w3 /\
  exists l' e,
    backgroundWriter_loop grow_exact w3
      (arrivals [(A1, 1); (B1, 2); (C1, 3); (D1, 4)]) top_loop g0
    = (Some l',
       {| numWritesWithBatchSize :=
            numWritesWithBatchSize g0 + Z.of_nat (length (flushed e));
          numWritesWithFlushInterval := numWritesWithFlushInterval g0 |},
       e) /\
    concat (flushed e) ++ items (batch l')
    = items (batch top_loop) ++ map fst [(A1, 1); (B1, 2); (C1, 3); (D1, 4)] /\
    Forall (fun b => Z.of_nat (length b) = size w3) (flushed e) /\
    cap (batch l') = size w3 /\ len (batch l') < size w3.
Proof.
  assert (H1 : 1 <= size w3) by (simpl; lia).
  assert (H2 : cap (batch top_loop) = size w3) by reflexivity.
  assert (H3 : len (batch top_loop) < size w3) by (vm_compute; reflexivity).
  split; [exact H1 | split; [exact H2 | split; [exact H3|]]].
  exact (arrivals_are_cut_into_full_batches grow_exact w3
           [(A1, 1); (B1, 2); (C1, 3); (D1, 4)] top_loop g0 H1 H2 H3).
Defined.

Lemma timer_flush_happens_once_witness :
  mono (last loop_A) /\ mono 2000 /\
  delay (workerParams w3) < 2000 - last loop_A /\
  0 < len (batch loop_A) /\
  exists l' e,
    backgroundWriter_loop grow_exact w3
      ((CaseTimer 2000, 2001) :: ticks [(2500, 2501); (9000, 9001)])
      loop_A g0
    = (Some l', inc_flush_interval g0, e) /\
    flushed e = [items (batch loop_A)] /\
    batch l' = make (size w3) /\ last l' = 2001.
Proof.
  assert (H1 : mono (last loop_A)) by (unfold mono; simpl; lia).
  assert (H2 : mono 2000) by (unfold mono; lia).
  assert (H3 : delay (workerParams w3) < 2000 - last loop_A)
    by (vm_compute; reflexivity).
  assert (H4 : 0 < len (batch loop_A)) by (vm_compute; reflexivity).
  split; [exact H1 | split; [exact H2 | split; [exact H3 | split;
    [exact H4|]]]].
  exact (timer_flush_happens_once grow_exact w3 [(2500, 2501); (9000, 9001)]
           loop_A g0 2000 2001 H1 H2 H3 H4).
Defined.

Lemma Close_can_complete_witness :
  run grow_exact w3 7 closing_at_init (boot g0)
    = Some (machine_after closing_at_init) /\
  closer (machine_after closing_at_init) = CloseSending /\
  exists acts' m',
    (length acts' <= 5)%nat /\
    run grow_exact w3 7 acts' (machine_after closing_at_init) = Some m' /\
    closer m' = CloseDone nil_error /\ sched m' = SchedExit.
Proof.
  assert (H1 : run grow_exact w3 7 closing_at_init (boot g0)
               = Some (machine_after closing_at_init))
    by (vm_compute; reflexivity).
  assert (H2 : closer (machine_after closing_at_init) = CloseSending)
    by (vm_compute; reflexivity).
  split; [exact H1 | split; [exact H2|]].
  exact (Close_can_complete grow_exact w3 7 closing_at_init g0 _ 9 H1 H2).
Defined.

Lemma queue_full_one_pending j y e' :
  calls (machine_after queue_full) !! j = Some (AtSend y e') -> j = 3%nat.
Proof.
  change (calls (machine_after queue_full))
    with [Returned nil_error; Returned nil_error; Returned nil_error;
          AtSend D1 nil_error].
  destruct j as [|[|[|[|j]]]]; simpl; intros H;
    try discriminate; reflexivity.
Defined.

Lemma blocked_send_is_released_witness :
  0 <= size w3 /\
  run grow_exact w3 7 queue_full (boot g0) = Some (machine_after queue_full) /\
  closer (machine_after queue_full) = CloseIdle /\
  calls (machine_after queue_full) !! 3%nat = Some (AtSend D1 nil_error) /\
  (forall j y e',
     calls (machine_after queue_full) !! j = Some (AtSend y e') -> j = 3%nat) /\
  exists acts' m',
    (length acts' <= 4)%nat /\
    Forall not_a_write acts' /\
    run grow_exact w3 7 acts' (machine_after queue_full) = Some m' /\
    calls m' !! 3%nat = Some (Returned nil_error) /\
    (forall j y e', calls m' !! j <> Some (AtSend y e')).
Proof.
  assert (H1 : 0 <= size w3) by (simpl; lia).
  assert (H2 : run grow_exact w3 7 queue_full (boot g0)
               = Some (machine_after queue_full)) by (vm_compute; reflexivity).
  assert (H3 : closer (machine_after queue_full) = CloseIdle)
    by (vm_compute; reflexivity).
  assert (H4 : calls (machine_after queue_full) !! 3%nat
               = Some (AtSend D1 nil_error)) by (vm_compute; reflexivity).
  split; [exact H1 | split; [exact H2 | split; [exact H3 | split;
    [exact H4 | split; [exact queue_full_one_pending|]]]]].
  exact (blocked_send_is_released grow_exact w3 7 queue_full g0 _ 3%nat D1
           nil_error 9 H1 H2 H3 H4 queue_full_one_pending).
Defined.

Lemma NewSpanWriter_panics_iff_witness :
  is_int64 (2 ^ 62) /\
  max_chan_capacity < 2 ^ 62 /\
  NewSpanWriter "jaeger_index" "jaeger_spans" "default" EncodingJSON 1000
    (2 ^ 62) 10 process_start = None.
Proof.
  assert (H0 : is_int64 (2 ^ 62)) by (split; vm_compute; [discriminate | reflexivity]).
  assert (H1 : max_chan_capacity < 2 ^ 62) by (vm_compute; reflexivity).
  split; [exact H0 | split; [exact H1|]].
  exact (proj2 (NewSpanWriter_panics_iff "jaeger_index" "jaeger_spans"
                  "default" EncodingJSON 1000 (2 ^ 62) 10 process_start H0)
               (or_intror (or_introl H1))).
Defined.

Lemma send_after_exit_blocks_forever_witness :
  sched (machine_after stuck_after_exit) = SchedExit /\
  size w3 <= Z.of_nat (length (spans (machine_after stuck_after_exit))) /\
  calls (machine_after stuck_after_exit) !! 3%nat
    = Some (AtSend D1 nil_error) /\
  run grow_exact w3 7 [ActWriteSpan ctx_no_metadata "E"]
    (machine_after stuck_after_exit)
  = Some (machine_after (stuck_after_exit
                           ++ [ActWriteSpan ctx_no_metadata "E"])) /\
  calls (machine_after (stuck_after_exit
                          ++ [ActWriteSpan ctx_no_metadata "E"])) !! 3%nat
    = Some (AtSend D1 nil_error) /\
  sched (machine_after (stuck_after_exit
                          ++ [ActWriteSpan ctx_no_metadata "E"])) = SchedExit.
Proof.
  assert (H1 : sched (machine_after stuck_after_exit) = SchedExit)
    by (vm_compute; reflexivity).
  assert (H2 : size w3
               <= Z.of_nat (length (spans (machine_after stuck_after_exit))))
    by (vm_compute; discriminate).
  assert (H3 : calls (machine_after stuck_after_exit) !! 3%nat
               = Some (AtSend D1 nil_error)) by (vm_compute; reflexivity).
  assert (H4 : run grow_exact w3 7 [ActWriteSpan ctx_no_metadata "E"]
                 (machine_after stuck_after_exit)
               = Some (machine_after (stuck_after_exit
                                        ++ [ActWriteSpan ctx_no_metadata "E"])))
    by (vm_compute; reflexivity).
  split; [exact H1 | split; [exact H2 | split; [exact H3 | split;
    [exact H4|]]]].
  exact (send_after_exit_blocks_forever grow_exact w3 7 _ _ _ 3%nat D1
           nil_error H1 H2 H3 H4).
Defined.
